(** * NoteMart shop: the cart, auth, payment and order logic, verified

    A shallow embedding of the client-side state logic of the marketplace:
    the cart reducer and its derived statistics (contexts/CartContext),
    the auth provider (contexts/AuthContext), the payment service
    (lib/paymentService), the checkout handler (pages/CheckoutPage) and the
    order-loading effect (pages/OrdersPage).

    Conventions of the embedding.
    - A JavaScript [number] that holds a count (a quantity) is a [Z], the
      integer that the binary64 value is.  Counts are added as binary64
      adds them ([Js.plus]): exactly up to [2^53], rounded beyond.
    - A JavaScript [number] that holds money is a binary64 [float], with the
      IEEE-754 operations of the kernel: [15.99 * 0.1] rounds as it does in
      the browser.
    - A string is a [string] whose characters are code units in the Latin-1
      range.
    - A [Date] is its time value, a [Z] of milliseconds since the epoch.
    - React's [dispatch] applies the reducer to the current state; the
      operations of a provider are state transformers. *)

From Stdlib Require Import PrimFloat FloatOps SpecFloat FloatAxioms.
From Stdlib Require Import ZArith QArith Qround Ascii String DecimalString List Lia Lqa.
From stdpp Require Import base option list gmap strings.

Set Warnings "-inexact-float,-register-all".

Local Open Scope string_scope.
Local Open Scope Z_scope.
Local Open Scope list_scope.

(** ** JavaScript numbers *)

Module Js.

(** The binary64 value of an integer, rounded to nearest-even. *)
Definition float_of_Z (z : Z) : float :=
  SF2Prim (binary_normalize 53 1024 z 0 false).

(** [x || 1] on an optional count: [undefined] and [0] are falsy. *)
Definition or_1 (q : option Z) : Z :=
  match q with
  | Some 0 | None => 1
  | Some n => n
  end.

(** Truthiness of a string: only the empty string is falsy. *)
Definition truthy_string (s : string) : bool :=
  match s with
  | EmptyString => false
  | String _ _ => true
  end.

(** Truthiness of a number: [0], [-0] and [NaN] are falsy. *)
Definition truthy_number (x : float) : bool :=
  negb (PrimFloat.eqb x 0%float) && negb (PrimFloat.is_nan x).

(** *** Strings.  A character is one code unit below 256. *)

Definition code (c : ascii) : N := N_of_ascii c.

Definition lowerChar (c : ascii) : ascii :=
  let n := code c in
  if ((65 <=? n) && (n <=? 90))%N then ascii_of_N (n + 32)
  else if ((192 <=? n) && (n <=? 222) && negb (n =? 215))%N
       then ascii_of_N (n + 32)
  else c.

(** [s.toLowerCase()] *)
Fixpoint toLowerCase (s : string) : string :=
  match s with
  | EmptyString => EmptyString
  | String c s' => String (lowerChar c) (toLowerCase s')
  end.

(** White space and line terminators: TAB, LF, VT, FF, CR, SP, NBSP. *)
Definition isSpace (c : ascii) : bool :=
  let n := code c in
  (((9 <=? n) && (n <=? 13)) || (n =? 32) || (n =? 160))%N.

Fixpoint trimStart (s : string) : string :=
  match s with
  | EmptyString => EmptyString
  | String c s' => if isSpace c then trimStart s' else s
  end.

(** Drops the trailing white space: a character stays when it is not a space
    or when something stays after it. *)
Fixpoint trimEnd (s : string) : string :=
  match s with
  | EmptyString => EmptyString
  | String c s' =>
      match trimEnd s' with
      | EmptyString => if isSpace c then EmptyString else String c EmptyString
      | rest => String c rest
      end
  end.

(** [s.trim()] *)
Definition trim (s : string) : string := trimEnd (trimStart s).

(** [hay.includes(needle)] *)
Fixpoint includes (needle hay : string) : bool :=
  if String.prefix needle hay then true
  else match hay with
       | EmptyString => false
       | String _ hay' => includes needle hay'
       end.

(** [s.split(sep)[0]] for a one-character separator: the text before its
    first occurrence, the whole string when there is none. *)
Fixpoint beforeFirst (sep : ascii) (s : string) : string :=
  match s with
  | EmptyString => EmptyString
  | String c s' =>
      if Ascii.eqb c sep then EmptyString else String c (beforeFirst sep s')
  end.

Definition hexDigit (n : N) : ascii :=
  if (n <? 10)%N then ascii_of_N (48 + n) else ascii_of_N (55 + n).

(** [%XX] for one byte. *)
Definition percent (byte : N) (rest : string) : string :=
  String "%" (String (hexDigit (byte / 16)) (String (hexDigit (byte mod 16)) rest)).

(** The characters [encodeURIComponent] leaves alone:
    letters, digits and [- _ . ! ~ * ' ( )]. *)
Definition unreserved (c : ascii) : bool :=
  let n := code c in
  (((65 <=? n) && (n <=? 90)) || ((97 <=? n) && (n <=? 122))
   || ((48 <=? n) && (n <=? 57))
   || (n =? 45) || (n =? 95) || (n =? 46) || (n =? 33) || (n =? 126)
   || (n =? 42) || (n =? 39) || (n =? 40) || (n =? 41))%N.

(** [encodeURIComponent(s)]: the other characters are written as the escaped
    bytes of their UTF-8 encoding (one byte below 128, two from 128 to 255). *)
Fixpoint encodeURIComponent (s : string) : string :=
  match s with
  | EmptyString => EmptyString
  | String c s' =>
      let n := code c in
      let rest := encodeURIComponent s' in
      if unreserved c then String c rest
      else if (n <? 128)%N then percent n rest
      else percent (192 + n / 64) (percent (128 + n mod 64) rest)
  end.

(** The rational that a finite binary64 value denotes. *)
Definition Q_of_float (x : float) : Q :=
  match Prim2SF x with
  | S754_finite negative m e =>
      let n := if negative then Z.neg m else Z.pos m in
      if 0 <=? e then inject_Z (n * 2 ^ e) else Qmake n (Z.to_pos (2 ^ (- e)))
  | _ => 0%Q
  end.

(** The integer that a binary64 value is, when it is one. *)
Definition Z_of_float (x : float) : option Z :=
  match Prim2SF x with
  | S754_zero _ => Some 0
  | S754_finite negative m e =>
      let n := if negative then Z.neg m else Z.pos m in
      if 0 <=? e then Some (n * 2 ^ e)
      else if n mod 2 ^ (- e) =? 0 then Some (n / 2 ^ (- e))
      else None
  | _ => None
  end.

(** The normal binary64 value with the 53-bit mantissa [m] and the exponent
    [E] is the integer [v]. *)
Definition denotes (v : Z) (m : positive) (E : Z) : Prop :=
  Z.log2 (Z.pos m) = 52 ∧ -1074 ≤ E ≤ 971
  ∧ Z.pos m * 2 ^ Z.max 0 E = v * 2 ^ Z.max 0 (- E).

(** [a + b] on two counts: the binary64 sum of the two integers, read back
    as an integer.  It is [a + b] as long as that is at most [2^53]; beyond,
    the sum is rounded to the nearest binary64 value, ties to even:
    [2^53 + 1] is [2^53].  (A sum that overflows to [Infinity], from
    [2^1024] on, has no integer; no count of the shop gets there.) *)
Definition plus (a b : Z) : Z :=
  default 0 (Z_of_float (float_of_Z a + float_of_Z b)%float).

(** [String(n)] for an integer. *)
Definition decimal (n : Z) : string := NilZero.string_of_int (Z.to_int n).

Definition upperChar (c : ascii) : ascii :=
  let n := code c in
  if ((97 <=? n) && (n <=? 122))%N then ascii_of_N (n - 32) else c.

(** [s.toUpperCase()], for text without letters beyond ASCII. *)
Fixpoint toUpperCase (s : string) : string :=
  match s with
  | EmptyString => EmptyString
  | String c s' => String (upperChar c) (toUpperCase s')
  end.

(** The number formatting of the platform that is left open:
    [x.toFixed(2)] and [r.toString(36)]. *)
Record Format := mkFormat {
  toFixed2 : float → string;
  toString36 : Q → string;
}.

End Js.

(** ** Persisted values (JSON and localStorage) *)

Module Json.

(** A JSON value.  [JDate t] is the string that a [Date] with time value [t]
    is serialised to, and that [new Date] reads back as [t]. *)
Inductive json :=
| JNull
| JBool (b : bool)
| JNum (x : float)
| JStr (s : string)
| JDate (t : Z)
| JArr (elems : list json)
| JObj (fields : list (string * json)).

(** The text stored under a key, by what [JSON.parse] makes of it:
    [Malformed] text makes it throw a SyntaxError, [Doc v] text parses to
    [v].  [JSON.stringify v] is [Doc v] (for values with finite numbers). *)
Inductive doc :=
| Malformed (text : string)
| Doc (v : json).

(** [localStorage]: its entries, and whether [setItem] succeeds (it throws
    when the quota is exceeded or storage is disabled). *)
Record Storage := mkStorage {
  entries : gmap string doc;
  writable : bool;
}.

(** Truthiness of a stored text: only the empty string is falsy. *)
Definition truthy_text (d : doc) : bool :=
  match d with
  | Malformed text => Js.truthy_string text
  | Doc _ => true
  end.

(** Truthiness of a value; [None] is [undefined]. *)
Definition truthy (v : option json) : bool :=
  match v with
  | None | Some JNull => false
  | Some (JBool b) => b
  | Some (JNum x) => Js.truthy_number x
  | Some (JStr s) => Js.truthy_string s
  | Some (JDate _) | Some (JArr _) | Some (JObj _) => true
  end.

Fixpoint assoc (key : string) (fields : list (string * json)) : option json :=
  match fields with
  | [] => None
  | (k, v) :: rest => if String.eqb k key then Some v else assoc key rest
  end.

(** [v.key] on a value other than [null]: a field of an object, [undefined]
    on anything else (the keys read here are no built-in properties). *)
Definition prop (v : json) (key : string) : option json :=
  match v with
  | JObj fields => assoc key fields
  | _ => None
  end.

(** [{ ...o, key: v }]: an existing key keeps its place and takes the new
    value, a new key goes last. *)
Fixpoint setField (key : string) (v : json) (fields : list (string * json))
  : list (string * json) :=
  match fields with
  | [] => [(key, v)]
  | (k, old) :: rest =>
      if String.eqb k key then (k, v) :: rest
      else (k, old) :: setField key v rest
  end.

(** [{ ...a, ...b }] *)
Definition spread (a b : list (string * json)) : list (string * json) :=
  fold_left (λ acc kv, setField kv.1 kv.2 acc) b a.

(** What a typed reading of a persisted value gives: the value, or
    [IllTyped] when the value has fields of other types than the interface
    the source casts it to; the typed model says nothing about those. *)
Inductive reading (A : Type) :=
| Read (a : A)
| IllTyped.
Arguments Read {A} a.
Arguments IllTyped {A}.

(** [JSON.stringify] of a number: [NaN] and the infinities are written as
    [null], and negative zero as [0]. *)
Definition jsonNumber (x : float) : json :=
  if PrimFloat.is_nan x || PrimFloat.is_infinity x then JNull
  else if PrimFloat.is_zero x then JNum 0%float
  else JNum x.

End Json.

(** ** The cart (contexts/CartContext) *)

Module Cart.
Import Json.

Definition LOCAL_STORAGE_KEYS_CART : string := "notemart_cart".

Record CartItem := mkCartItem {
  id : string;
  title : string;
  price : float;
  thumbnail : string;
  seller : string;
  subject : string;
  addedAt : Z;
  quantity : option Z;
}.

Record CartStats := mkCartStats {
  totalItems : Z;
  totalPrice : float;
  uniqueItems : nat;
}.

Record CartState := mkCartState {
  items : list CartItem;
  isLoading : bool;
  error : option string;
}.

Inductive CartAction :=
| SET_LOADING (payload : bool)
| SET_ERROR (payload : option string)
| SET_ITEMS (payload : list CartItem)
| ADD_ITEM (payload : CartItem)
| REMOVE_ITEM (payload : string)
| UPDATE_QUANTITY (payload_id : string) (payload_quantity : Z)
| CLEAR_CART
| CLEAR_ERROR.

(** [{ ...item, quantity: q }] *)
Definition with_quantity (item : CartItem) (q : option Z) : CartItem :=
  mkCartItem (id item) (title item) (price item) (thumbnail item)
             (seller item) (subject item) (addedAt item) q.

(** [{ ...item, addedAt: t }] *)
Definition with_addedAt (item : CartItem) (t : Z) : CartItem :=
  mkCartItem (id item) (title item) (price item) (thumbnail item)
             (seller item) (subject item) t (quantity item).

(** [items.findIndex(item => item.id === key)]; [None] is the source's -1. *)
Definition findIndex (key : string) (l : list CartItem) : option nat :=
  fst <$> list_find (λ item, id item = key) l.

Definition cartReducer (state : CartState) (action : CartAction) : CartState :=
  match action with
  | SET_LOADING b => mkCartState (items state) b (error state)
  | SET_ERROR e => mkCartState (items state) false e
  | SET_ITEMS l => mkCartState l false None
  | ADD_ITEM payload =>
      match findIndex (id payload) (items state) with
      | Some existingItemIndex =>
          let updatedItems :=
            alter (λ old, with_quantity old
                            (Some (Js.plus (Js.or_1 (quantity old)) 1)))
                  existingItemIndex (items state) in
          mkCartState updatedItems (isLoading state) None
      | None =>
          mkCartState (items state ++ [payload]) (isLoading state) None
      end
  | REMOVE_ITEM key =>
      mkCartState (filter (λ item, id item ≠ key) (items state))
                  (isLoading state) None
  | UPDATE_QUANTITY key q =>
      let updatedItems :=
        (λ item, if decide (id item = key)
                 then with_quantity item (Some (Z.max 1 q))
                 else item) <$> items state in
      mkCartState updatedItems (isLoading state) None
  | CLEAR_CART => mkCartState [] (isLoading state) None
  | CLEAR_ERROR => mkCartState (items state) (isLoading state) None
  end.

Definition initialState : CartState := mkCartState [] true None.

(** One element of the persisted array, read as a [CartItem]:
    [{ ...item, addedAt: new Date(item.addedAt || Date.now()),
       quantity: item.quantity || 1 }].  [None] when the element does not
    have the fields of the interface. *)
Definition readItem (now : Z) (item : json) : option CartItem :=
  let str key := match prop item key with Some (JStr s) => Some s | _ => None end in
  let priceField :=
    match prop item "price" with Some (JNum x) => Some x | _ => None end in
  let added :=
    if truthy (prop item "addedAt")
    then match prop item "addedAt" with Some (JDate t) => Some t | _ => None end
    else Some now in
  let count :=
    if truthy (prop item "quantity")
    then match prop item "quantity" with
         | Some (JNum x) => Js.Z_of_float x
         | _ => None
         end
    else Some 1 in
  match str "id", str "title", priceField, str "thumbnail", str "seller",
        str "subject", added, count with
  | Some i, Some t, Some p, Some th, Some se, Some su, Some a, Some q =>
      Some (mkCartItem i t p th se su a (Some q))
  | _, _, _, _, _, _, _, _ => None
  end.


Definition isNull (v : json) : bool :=
  match v with JNull => true | _ => false end.

(** [parseCartData]: the [catch] returns the empty list when [JSON.parse]
    throws, when the value is not an array, and when an element is [null]
    (reading its [addedAt] throws). *)
Definition parseCartData (cartData : doc) (now : Z) : reading (list CartItem) :=
  match cartData with
  | Malformed _ => Read []
  | Doc (JArr parsed) =>
      if existsb isNull parsed then Read []
      else match mapM (readItem now) parsed with
           | Some l => Read l
           | None => IllTyped
           end
  | Doc _ => Read []
  end.

(** [initializeCart], run when the provider mounts, from the initial state. *)
Definition initializeCart (now : Z) (store : Storage) : reading CartState :=
  match entries store !! LOCAL_STORAGE_KEYS_CART with
  | Some savedCart =>
      if truthy_text savedCart then
        match parseCartData savedCart now with
        | Read l => Read (cartReducer initialState (SET_ITEMS l))
        | IllTyped => IllTyped
        end
      else Read (cartReducer initialState (SET_LOADING false))
  | None => Read (cartReducer initialState (SET_LOADING false))
  end.

(** A persisted cart value is corrupted when it is not JSON or is JSON but
    not an array. *)
Definition corrupted (saved : doc) : Prop :=
  match saved with
  | Malformed _ => True
  | Doc (JArr _) => False
  | Doc _ => True
  end.

(** A storage whose cart entry is an object, not an array. *)
Definition corruptStore : Storage :=
  mkStorage {[ LOCAL_STORAGE_KEYS_CART := Doc (JObj [("id", JStr "note-1")]) ]}
            true.

(** The provider's operations.  [addItem] stamps the item with the current
    time and quantity 1 before it dispatches. *)
Definition addItem (item : CartItem) (now : Z) (state : CartState) : CartState :=
  let cartItem := with_quantity (with_addedAt item now) (Some 1) in
  cartReducer state (ADD_ITEM cartItem).

Definition removeItem (key : string) (state : CartState) : CartState :=
  cartReducer state (REMOVE_ITEM key).

Definition updateItemQuantity (key : string) (q : Z) (state : CartState)
  : CartState :=
  if q <=? 0 then removeItem key state
  else cartReducer state (UPDATE_QUANTITY key q).

Definition clearCart (state : CartState) : CartState :=
  cartReducer state CLEAR_CART.

(** The line total [item.price * (item.quantity || 1)]. *)
Definition linePrice (item : CartItem) : float :=
  (price item * Js.float_of_Z (Js.or_1 (quantity item)))%float.

(** [cartStats]: both totals are [reduce]s from 0, left to right, in
    binary64.  The formatted price string is presentation and is left out. *)
Definition cartStats (state : CartState) : CartStats :=
  let totalItems :=
    fold_left (λ sum item, Js.plus sum (Js.or_1 (quantity item)))
              (items state) 0 in
  let totalPrice :=
    fold_left (λ sum item, (sum + linePrice item)%float) (items state) 0%float in
  mkCartStats totalItems totalPrice (length (items state)).

(** [cartSummary] of the cart page (the checkout page's [orderSummary] is the
    same record). *)
Record Summary := mkSummary {
  subtotal : float;
  tax : float;
  total : float;
}.

Definition cartSummary (totalPrice : float) : Summary :=
  mkSummary totalPrice (totalPrice * 0.1)%float (totalPrice * 1.1)%float.

(** A sequence of calls to the provider's operations. *)
Inductive CartOp :=
| OpAdd (item : CartItem) (now : Z)
| OpRemove (key : string)
| OpUpdate (key : string) (q : Z)
| OpClear.

Definition applyOp (state : CartState) (op : CartOp) : CartState :=
  match op with
  | OpAdd item now => addItem item now state
  | OpRemove key => removeItem key state
  | OpUpdate key q => updateItemQuantity key q state
  | OpClear => clearCart state
  end.

Definition runOps (ops : list CartOp) : CartState :=
  fold_left applyOp ops initialState.

(** The sum of the stored quantities, entry by entry. *)
Fixpoint sumQuantities (qs : list Z) : Z :=
  match qs with
  | [] => 0
  | q :: qs' => q + sumQuantities qs'
  end.

(** The sum of the quantities of a cart as integers, without rounding, each
    quantity read as [cartStats] reads it. *)
Definition exactTotal (l : list CartItem) : Z :=
  fold_left (λ sum item, sum + Js.or_1 (quantity item)) l 0.

(** What a call can add to the sum of the quantities: one for an [addItem],
    the new quantity for an [updateItemQuantity], nothing for a removal. *)
Definition opWeight (op : CartOp) : Z :=
  match op with
  | OpAdd _ _ => 1
  | OpUpdate _ q => Z.max 0 q
  | OpRemove _ | OpClear => 0
  end.

Definition opsWeight (ops : list CartOp) : Z :=
  fold_right (λ op total, opWeight op + total) 0 ops.

(** The sum of the line totals in the order the entries are added up: the
    last entry's line is added to the sum of the ones before it. *)
Fixpoint sumLines (reversed : list CartItem) : float :=
  match reversed with
  | [] => 0%float
  | item :: earlier => (sumLines earlier + linePrice item)%float
  end.

(** Every entry has its own identifier and a stored quantity of at least 1. *)
Definition wellFormed (l : list CartItem) : Prop :=
  NoDup (id <$> l) ∧ Forall (λ item, ∃ q, quantity item = Some q ∧ 1 ≤ q) l.

(** The cart of the example scenario: one entry priced 15.99, quantity 1. *)
Definition exampleItem : CartItem :=
  mkCartItem "note-1" "Linear Algebra" 15.99%float "" "Ada" "Mathematics"
             1700000000000 (Some 1).

Definition exampleCart : CartState := mkCartState [exampleItem] false None.

(** A second item, and a cart whose one entry has been set to the quantity
    [2^53]. *)
Definition otherItem : CartItem :=
  mkCartItem "note-2" "Mechanics" 9.5%float "" "Bo" "Physics"
             1700000000000 (Some 1).

Definition bulkOrder : list CartOp :=
  [OpAdd exampleItem 5; OpUpdate "note-1" (2 ^ 53)].

(** [JSON.stringify] of one entry: the fields of the item as the note card
    passes them, then [addedAt] and [quantity]; an undefined quantity is left
    out. *)
Definition itemJson (item : CartItem) : json :=
  JObj ([("id", JStr (id item)); ("title", JStr (title item));
         ("price", jsonNumber (price item));
         ("thumbnail", JStr (thumbnail item)); ("seller", JStr (seller item));
         ("subject", JStr (subject item)); ("addedAt", JDate (addedAt item))]
        ++ match quantity item with
           | Some q => [("quantity", jsonNumber (Js.float_of_Z q))]
           | None => []
           end).

(** [saveCartData]: a write that throws is logged and swallowed, the storage
    stays as it was. *)
Definition saveCartData (l : list CartItem) (store : Storage) : Storage :=
  if writable store
  then mkStorage (<[LOCAL_STORAGE_KEYS_CART := Doc (JArr (itemJson <$> l))]>
                    (entries store)) true
  else store.

(** The effect that saves the cart whenever the items change, once loading
    is over. *)
Definition persistCart (state : CartState) (store : Storage) : Storage :=
  if negb (isLoading state) then saveCartData (items state) store else store.

(** [hasItem] *)
Definition hasItem (key : string) (state : CartState) : bool :=
  existsb (λ item, bool_decide (id item = key)) (items state).

(** [getItem]; [None] is [undefined]. *)
Definition getItem (key : string) (state : CartState) : option CartItem :=
  snd <$> list_find (λ item, id item = key) (items state).

(** [getTotalBySubject] *)
Definition getTotalBySubject (subj : string) (state : CartState) : float :=
  fold_left (λ total item, (total + linePrice item)%float)
            (filter (λ item, subject item = subj) (items state)) 0%float.

(** [clearError] *)
Definition clearError (state : CartState) : CartState :=
  cartReducer state CLEAR_ERROR.

(** An integer that binary64 holds exactly. *)
Definition exactInDouble (q : Z) : Prop :=
  Js.Z_of_float (Js.float_of_Z q) = Some q.

(** An entry whose numbers [JSON.stringify] writes as they are: a finite
    price other than negative zero, and a stored quantity that is not zero
    and exact in binary64. *)
Definition storable (item : CartItem) : Prop :=
  PrimFloat.is_finite (price item) = true
  ∧ price item ≠ PrimFloat.neg_zero
  ∧ ∃ q, quantity item = Some q ∧ q ≠ 0 ∧ exactInDouble q.


Definition fullStorage : Storage := mkStorage ∅ false.

End Cart.

(** ** Authentication (contexts/AuthContext) *)

Module Auth.
Import Json.

Definition LOCAL_STORAGE_KEYS_USER : string := "notemart_user".

(** [USER_ROLES] *)
Inductive UserRole := BUYER | SELLER | ADMIN.

Definition roleName (r : UserRole) : string :=
  match r with
  | BUYER => "buyer"
  | SELLER => "seller"
  | ADMIN => "admin"
  end.

Definition roleOfName (s : string) : option UserRole :=
  if String.eqb s "buyer" then Some BUYER
  else if String.eqb s "seller" then Some SELLER
  else if String.eqb s "admin" then Some ADMIN
  else None.

Record User := mkUser {
  id : string;
  email : string;
  name : string;
  role : UserRole;
  avatar : option string;
  createdAt : Z;
  lastLoginAt : option Z;
}.

Inductive AuthErrorType :=
| INVALID_CREDENTIALS
| USER_EXISTS
| NETWORK_ERROR
| INVALID_EMAIL
| WEAK_PASSWORD
| STORAGE_ERROR.

Record AuthError := mkAuthError {
  type : AuthErrorType;
  message : string;
}.

Definition LOGIN_FAILED : string := "Invalid email or password".
Definition SIGNUP_FAILED : string := "Failed to create account".
Definition NETWORK_ERROR_MESSAGE : string := "Network error. Please try again.".

Record AuthState := mkAuthState {
  user : option User;
  isLoading : bool;
  error : option AuthError;
}.

Inductive AuthAction :=
| SET_LOADING (payload : bool)
| SET_USER (payload : option User)
| SET_ERROR (payload : option AuthError)
| CLEAR_ERROR
| LOGOUT.

Definition authReducer (state : AuthState) (action : AuthAction) : AuthState :=
  match action with
  | SET_LOADING b => mkAuthState (user state) b (error state)
  | SET_USER u => mkAuthState u false None
  | SET_ERROR e => mkAuthState (user state) false e
  | CLEAR_ERROR => mkAuthState (user state) (isLoading state) None
  | LOGOUT => mkAuthState None false None
  end.

Definition initialState : AuthState := mkAuthState None true None.

(** [validatePassword] *)
Definition validatePassword (password : string) : bool :=
  (6 <=? String.length password)%nat.

(** [JSON.stringify(user)]: the fields in the order of the object literal,
    the optional ones only when defined. *)
Definition userJson (u : User) : json :=
  JObj ([("id", JStr (id u)); ("email", JStr (email u));
         ("name", JStr (name u)); ("role", JStr (roleName (role u)))]
        ++ match avatar u with Some a => [("avatar", JStr a)] | None => [] end
        ++ [("createdAt", JDate (createdAt u))]
        ++ match lastLoginAt u with
           | Some t => [("lastLoginAt", JDate t)]
           | None => []
           end).

Definition asString (v : option json) : option string :=
  match v with Some (JStr s) => Some s | _ => None end.

(** [new Date(v)] for a serialised date. *)
Definition asDate (v : option json) : option Z :=
  match v with Some (JDate t) => Some t | _ => None end.

(** The object that [parseUserData] returns once the required fields are
    there, read as a [User]. *)
Definition readUser (parsed : json) (now : Z) : reading User :=
  let created :=
    if truthy (prop parsed "createdAt") then asDate (prop parsed "createdAt")
    else Some now in
  let lastLogin :=
    if truthy (prop parsed "lastLoginAt")
    then Some <$> asDate (prop parsed "lastLoginAt")
    else Some None in
  let avatarField :=
    match prop parsed "avatar" with
    | None => Some None
    | Some (JStr a) => Some (Some a)
    | Some _ => None
    end in
  match asString (prop parsed "id"), asString (prop parsed "email"),
        asString (prop parsed "name"),
        asString (prop parsed "role") ≫= roleOfName,
        avatarField, created, lastLogin with
  | Some i, Some e, Some n, Some r, Some a, Some c, Some l =>
      Read (mkUser i e n r a c l)
  | _, _, _, _, _, _, _ => IllTyped
  end.

(** A persisted record that has the fields of the [User] interface with
    their types: the strings, one of the three roles, a string (or nothing)
    for the avatar and dates (or nothing) for the two times. *)
Definition typedUser (parsed : json) : Prop :=
  (∃ i, prop parsed "id" = Some (JStr i))
  ∧ (∃ e, prop parsed "email" = Some (JStr e))
  ∧ (∃ n, prop parsed "name" = Some (JStr n))
  ∧ (∃ r, prop parsed "role" = Some (JStr (roleName r)))
  ∧ (prop parsed "avatar" = None ∨ ∃ a, prop parsed "avatar" = Some (JStr a))
  ∧ (truthy (prop parsed "createdAt") = true →
     ∃ c, prop parsed "createdAt" = Some (JDate c))
  ∧ (truthy (prop parsed "lastLoginAt") = true →
     ∃ l, prop parsed "lastLoginAt" = Some (JDate l)).

(** [parseUserData]: [None] is the source's [null], returned when
    [JSON.parse] throws, when reading a field of [null] throws, or when a
    required field is missing or falsy. *)
Definition parseUserData (userData : doc) (now : Z) : reading (option User) :=
  match userData with
  | Malformed _ => Read None
  | Doc JNull => Read None
  | Doc parsed =>
      if negb (truthy (prop parsed "id")) || negb (truthy (prop parsed "email"))
         || negb (truthy (prop parsed "name")) || negb (truthy (prop parsed "role"))
      then Read None
      else match readUser parsed now with
           | Read u => Read (Some u)
           | IllTyped => IllTyped
           end
  end.

(** What a thrown value is: an [AuthError] or any other error. *)
Inductive exn :=
| ExnAuth (e : AuthError)
| ExnOther (description : string).

Inductive event :=
| ApiDelay (ms : Z)
| ConsoleWarn (text : string)
| ConsoleError (text : string).

(** The provider's state, the storage, and what happened so far (latest
    event last). *)
Record World := mkWorld {
  state : AuthState;
  storage : Storage;
  events : list event;
}.

Inductive result (A : Type) :=
| Ok (a : A)
| Thrown (e : exn).
Arguments Ok {A} a.
Arguments Thrown {A} e.

(** Computations that read and change the world and may throw. *)
Definition M (A : Type) : Type := World → result A * World.

#[global] Instance M_ret : MRet M := λ A a w, (Ok a, w).

#[global] Instance M_bind : MBind M :=
  λ A B k m w, match m w with
               | (Ok a, w') => k a w'
               | (Thrown e, w') => (Thrown e, w')
               end.

Definition throw {A} (e : exn) : M A := λ w, (Thrown e, w).

(** [try { body } catch (error) { handler(error) }] *)
Definition tryCatch {A} (body : M A) (handler : exn → M A) : M A :=
  λ w, match body w with
       | (Ok a, w') => (Ok a, w')
       | (Thrown e, w') => handler e w'
       end.

Definition dispatch (action : AuthAction) : M unit :=
  λ w, (Ok tt, mkWorld (authReducer (state w) action) (storage w) (events w)).

Definition emit (e : event) : M unit :=
  λ w, (Ok tt, mkWorld (state w) (storage w) (events w ++ [e])).

(** [simulateApiDelay(ms = 1000)] *)
Definition simulateApiDelay : M unit := emit (ApiDelay 1000).

(** [localStorage.setItem(key, text)] *)
Definition setItem (key : string) (text : doc) : M unit :=
  λ w, if writable (storage w)
       then (Ok tt, mkWorld (state w)
                            (mkStorage (<[key := text]> (entries (storage w))) true)
                            (events w))
       else (Thrown (ExnOther "QuotaExceededError"), w).

(** [saveUserData] *)
Definition saveUserData (u : User) : M unit :=
  tryCatch (setItem LOCAL_STORAGE_KEYS_USER (Doc (userJson u)))
           (λ _, emit (ConsoleError "Failed to save user data to localStorage:") ;;
                 throw (ExnAuth (mkAuthError STORAGE_ERROR "Failed to save user session"))).

(** [determineUserRole] *)
Definition determineUserRole (email : string) : UserRole :=
  if Js.includes "admin" email then ADMIN
  else if Js.includes "seller" email then SELLER
  else BUYER.

(** [generateAvatarUrl] *)
Definition generateAvatarUrl (email : string) : string :=
  String.append "https://api.dicebear.com/7.x/avataaars/svg?seed="
                (Js.encodeURIComponent email).

(** What one call of [login] or [register] draws from outside: the result
    of [generateId()] and of its two [new Date()]. *)
Record Env := mkEnv {
  generatedId : string;
  createdNow : Z;
  loginNow : Z;
}.

Section WithValidator.

(** [isValidEmail] of lib/utils, which is not among the sources. *)
Variable isValidEmail : string → bool.

(** The [catch] of [login] and [register]. *)
Definition rethrow (fallback : string) (error : exn) : M unit :=
  let authError :=
    match error with
    | ExnAuth e => e
    | ExnOther _ => mkAuthError NETWORK_ERROR fallback
    end in
  dispatch (SET_ERROR (Some authError)) ;;
  throw (ExnAuth authError).

Definition login (email password : string) (env : Env) : M unit :=
  tryCatch
    (dispatch (SET_LOADING true) ;;
     dispatch CLEAR_ERROR ;;
     (if negb (isValidEmail email)
      then throw (ExnAuth (mkAuthError INVALID_EMAIL LOGIN_FAILED))
      else mret tt) ;;
     (if negb (validatePassword password)
      then throw (ExnAuth (mkAuthError WEAK_PASSWORD "Password is too weak"))
      else mret tt) ;;
     simulateApiDelay ;;
     let mockUser :=
       mkUser (generatedId env)
              (Js.trim (Js.toLowerCase email))
              (Js.beforeFirst "@" email)
              (determineUserRole email)
              (Some (generateAvatarUrl email))
              (createdNow env)
              (Some (loginNow env)) in
     saveUserData mockUser ;;
     dispatch (SET_USER (Some mockUser)))
    (rethrow NETWORK_ERROR_MESSAGE).

(** [register]; [roleArg = None] is a call without the fourth argument,
    which takes the default [USER_ROLES.BUYER]. *)
Definition register (email password name : string) (roleArg : option UserRole)
    (env : Env) : M unit :=
  let role := default BUYER roleArg in
  tryCatch
    (dispatch (SET_LOADING true) ;;
     dispatch CLEAR_ERROR ;;
     (if negb (isValidEmail email)
      then throw (ExnAuth (mkAuthError INVALID_EMAIL
                                       "Please enter a valid email address"))
      else mret tt) ;;
     (if negb (validatePassword password)
      then throw (ExnAuth (mkAuthError WEAK_PASSWORD
                                       "Password must be at least 6 characters long"))
      else mret tt) ;;
     (if negb (Js.truthy_string (Js.trim name))
      then throw (ExnAuth (mkAuthError INVALID_CREDENTIALS "Name is required"))
      else mret tt) ;;
     simulateApiDelay ;;
     let mockUser :=
       mkUser (generatedId env)
              (Js.trim (Js.toLowerCase email))
              (Js.trim name)
              role
              (Some (generateAvatarUrl email))
              (createdNow env)
              (Some (loginNow env)) in
     saveUserData mockUser ;;
     dispatch (SET_USER (Some mockUser)))
    (rethrow SIGNUP_FAILED).

End WithValidator.

(** [initializeAuth], run when the provider mounts, from the initial state.
    [now] is [Date.now()], used when the persisted user has no creation
    date. *)
Definition initializeAuth (now : Z) (store : Storage) : reading World :=
  let start := mkWorld initialState store [] in
  let anonymous := Read (snd (dispatch (SET_LOADING false) start)) in
  match entries store !! LOCAL_STORAGE_KEYS_USER with
  | Some savedUserData =>
      if truthy_text savedUserData then
        match parseUserData savedUserData now with
        | Read (Some u) => Read (snd (dispatch (SET_USER (Some u)) start))
        | Read None =>
            Read (snd ((emit (ConsoleWarn "Failed to parse user data from localStorage:") ;;
                        dispatch (SET_LOADING false)) start))
        | IllTyped => IllTyped
        end
      else anonymous
  | None => anonymous
  end.

#[global] Instance UserRole_eq_dec : EqDecision UserRole.
Proof. solve_decision. Defined.

(** [localStorage.removeItem(key)].  [throws] says whether the call throws
    (the browser refuses the access to the storage), which leaves the
    entries as they are. *)
Definition removeItem (throws : bool) (key : string) : M unit :=
  λ w, if throws then (Thrown (ExnOther "SecurityError"), w)
       else (Ok tt, mkWorld (state w)
                            (mkStorage (delete key (entries (storage w)))
                                       (writable (storage w)))
                            (events w)).

(** [logout]: the state is reset even when the removal throws;
    [removalThrows] is what the call to [localStorage.removeItem] does. *)
Definition logout (removalThrows : bool) : M unit :=
  tryCatch (removeItem removalThrows LOCAL_STORAGE_KEYS_USER ;; dispatch LOGOUT)
           (λ _, emit (ConsoleError "Error during logout:") ;; dispatch LOGOUT).

(** [clearError] *)
Definition clearError : M unit := dispatch CLEAR_ERROR.

(** [refreshUser]; [now] is its [new Date()].  Nothing catches what
    [saveUserData] throws. *)
Definition refreshUser (now : Z) : M unit :=
  λ w, match user (state w) with
       | Some u =>
           let updatedUser :=
             mkUser (id u) (email u) (name u) (role u) (avatar u)
                    (createdAt u) (Some now) in
           (saveUserData updatedUser ;; dispatch (SET_USER (Some updatedUser))) w
       | None => (Ok tt, w)
       end.

(** [isAuthenticated] *)
Definition isAuthenticated (s : AuthState) : bool :=
  match user s with Some _ => true | None => false end.

(** [hasRole]: [state.user?.role === role] *)
Definition hasRole (r : UserRole) (s : AuthState) : bool :=
  match user s with
  | Some u => bool_decide (role u = r)
  | None => false
  end.

(** [hasAnyRole]: [!!state.user && roles.includes(state.user.role)] *)
Definition hasAnyRole (roles : list UserRole) (s : AuthState) : bool :=
  match user s with
  | Some u => existsb (λ r, bool_decide (r = role u)) roles
  | None => false
  end.

(** The validator used in the examples. *)
Fixpoint noSpaceNoAt (s : string) : bool :=
  match s with
  | EmptyString => true
  | String c s' => negb (Js.isSpace c) && negb (Ascii.eqb c "@") && noSpaceNoAt s'
  end.

(** Does [s] read as [x.y] with [x] and [y] not empty? *)
Fixpoint dotInside (s : string) : bool :=
  match s with
  | String _ (String "." (String _ _)) => true
  | String _ s' => dotInside s'
  | EmptyString => false
  end.

Fixpoint afterFirst (sep : ascii) (s : string) : option string :=
  match s with
  | EmptyString => None
  | String c s' => if Ascii.eqb c sep then Some s' else afterFirst sep s'
  end.

(** Modelled from the spec: [isValidEmail] is defined in lib/utils, which is
    not among the sources; the spec only says that emails have a validated
    format and that not-an-email is rejected.  This instance is the usual
    shape test [local@domain.tld] without white space; it instantiates the
    parameter in the examples and is not part of any general statement. *)
Definition sampleIsValidEmail (email : string) : bool :=
  let localPart := Js.beforeFirst "@" email in
  match afterFirst "@" email with
  | Some domain =>
      Js.truthy_string localPart && noSpaceNoAt localPart
      && noSpaceNoAt domain && dotInside domain
  | None => false
  end.

Definition sampleEnv : Env := mkEnv "k3j9x2m1q" 1700000000000 1700000000001.

Definition emptyStorage : Storage := mkStorage ∅ true.

Definition freshWorld : World := mkWorld initialState emptyStorage [].

(** A user and a world in which that user is signed in. *)
Definition sampleUser : User :=
  mkUser "k3j9x2m1q" "jo@x.com" "jo" BUYER None 1700000000000
         (Some 1700000000001).

Definition signedInWorld : World :=
  mkWorld (mkAuthState (Some sampleUser) false None)
          (mkStorage {[ LOCAL_STORAGE_KEYS_USER := Doc (userJson sampleUser) ]} true)
          [].

End Auth.

(** ** The payment service (lib/paymentService) *)

Module Payment.

Inductive PaymentMethod := STRIPE | PAYPAL | RAZORPAY | APPLE_PAY | GOOGLE_PAY.

Definition methodName (m : PaymentMethod) : string :=
  match m with
  | STRIPE => "stripe"
  | PAYPAL => "paypal"
  | RAZORPAY => "razorpay"
  | APPLE_PAY => "apple_pay"
  | GOOGLE_PAY => "google_pay"
  end.

Inductive PaymentStatus := PENDING | PROCESSING | COMPLETED | FAILED | CANCELLED.

Record LineItem := mkLineItem {
  id : string;
  title : string;
  price : float;
  quantity : Z;
}.

Record CustomerInfo := mkCustomerInfo {
  email : string;
  name : string;
}.

Record PaymentRequest := mkPaymentRequest {
  amount : float;
  currency : string;
  method : PaymentMethod;
  items : list LineItem;
  customerInfo : CustomerInfo;
}.

Record PaymentResponse := mkPaymentResponse {
  success : bool;
  transactionId : option string;
  status : PaymentStatus;
  message : string;
  redirectUrl : option string;
  error : option string;
}.

(** What one call of [processPayment] draws from outside: its three
    [Math.random()] results, in call order (the delay, the outcome, and the
    transaction suffix or the failure reason), and [Date.now()].  The delay
    is computed from its draw in floating point, so that draw is kept as
    the binary64 value it is; the other two are only compared, or scaled by
    the power of two 4 and floored, which is exact, and they are kept as
    the rationals that they denote. *)
Record Draws := mkDraws {
  delayDraw : float;
  successDraw : Q;
  pickDraw : Q;
  dateNow : Z;
}.

Definition successRates (m : PaymentMethod) : float :=
  match m with
  | STRIPE => 0.95
  | PAYPAL => 0.92
  | RAZORPAY => 0.90
  | APPLE_PAY => 0.97
  | GOOGLE_PAY => 0.96
  end%float.

Definition failures : list string :=
  ["Insufficient funds"; "Payment method declined"; "Network timeout";
   "Invalid payment details"].

(** [failures[Math.floor(r * failures.length)]]; an index outside the array
    reads [undefined]. *)
Definition pickFailure (r : Q) : option string :=
  let index := Qfloor (r * inject_Z (Z.of_nat (length failures))) in
  if index <? 0 then None else failures !! Z.to_nat index.

(** [processPayment]: the time it waits, in milliseconds
    ([2000 + Math.random() * 3000], in binary64), and the response it
    resolves to. *)
Definition processPayment (fmt : Js.Format) (draws : Draws)
    (paymentRequest : PaymentRequest) : float * PaymentResponse :=
  let delay := (2000 + delayDraw draws * 3000)%float in
  let successRate := Js.Q_of_float (successRates (method paymentRequest)) in
  let isSuccess := negb (Qle_bool successRate (successDraw draws)) in
  let response :=
    if isSuccess then
      mkPaymentResponse
        true
        (Some ("txn_" +:+ Js.decimal (dateNow draws) +:+ "_"
               +:+ String.substring 2 9 (Js.toString36 fmt (pickDraw draws))))
        COMPLETED
        ("Payment of " +:+ currency paymentRequest +:+ " "
         +:+ Js.toFixed2 fmt (amount paymentRequest)
         +:+ " processed successfully via "
         +:+ Js.toUpperCase (methodName (method paymentRequest)))
        None
        None
    else
      mkPaymentResponse false None FAILED "Payment failed" None
                        (pickFailure (pickDraw draws)) in
  (delay, response).

(** [validatePaymentRequest]: the checks push their messages in order. *)
Definition validatePaymentRequest (request : PaymentRequest) : list string :=
  (if negb (Js.truthy_number (amount request))
      || PrimFloat.leb (amount request) 0%float
   then ["Invalid payment amount"] else [])
  ++ (if negb (Js.truthy_string (currency request))
      then ["Currency is required"] else [])
  ++ (if negb (Js.truthy_string (methodName (method request)))
      then ["Payment method is required"] else [])
  ++ (if (length (items request) =? 0)%nat
      then ["No items to purchase"] else [])
  ++ (if negb (Js.truthy_string (email (customerInfo request)))
      then ["Customer email is required"] else [])
  ++ (if negb (Js.truthy_string (name (customerInfo request)))
      then ["Customer name is required"] else []).

(** A formatter for the examples. *)
Definition sampleFormat : Js.Format :=
  Js.mkFormat (λ _, "17.59") (λ _, "0.k3j9x2m1qz").

Definition sampleDraws : Draws :=
  mkDraws 0.5%float (1 # 2) (1 # 2) 1700000000000.

(** A request with no line items. *)
Definition emptyRequest : PaymentRequest :=
  mkPaymentRequest 17.589%float "USD" STRIPE []
                   (mkCustomerInfo "jo@x.com" "Jo").

End Payment.

(** ** The checkout handler (pages/CheckoutPage) *)

Module Checkout.
Import Payment.

(** [ROUTES] of lib/constants.  It has no [ORDERS] key. *)
Definition ROUTES : list (string * string) :=
  [("HOME", "/"); ("NOTES", "/notes"); ("LOGIN", "/login");
   ("SIGNUP", "/signup"); ("CART", "/cart"); ("PROFILE", "/profile");
   ("SPEECH_DEMO", "/speech-demo");
   ("SELLER_DASHBOARD", "/seller/dashboard");
   ("SELLER_LISTINGS", "/seller/listings");
   ("SELLER_UPLOAD", "/seller/listings/new");
   ("ADMIN", "/admin"); ("ADMIN_DASHBOARD", "/admin/dashboard");
   ("ADMIN_MODERATION", "/admin/moderation"); ("ADMIN_USERS", "/admin/users")].

(** [ROUTES.key]: a key that the object does not have reads [undefined],
    here [None]. *)
Definition route (key : string) : option string :=
  snd <$> find (λ entry, String.eqb entry.1 key) ROUTES.

(** The path that the router of App.tsx serves the orders page on. *)
Definition ORDERS_PATH : string := "/orders".

(** The [orderData] that [handleCheckout] passes on as navigation state. *)
Record OrderData := mkOrderData {
  transactionId : option string;
  items : list LineItem;
  total : float;
  paymentMethod : PaymentMethod;
  date : Z;
}.

(** What [handleCheckout] does, as seen from outside.  [Navigate to data] is
    [navigate(to, { state: { orderData: data } })], with [to = None] for a
    call whose first argument is [undefined]. *)
Inductive effect :=
| Toast (title description : string) (destructive : bool)
| SetIsProcessing (b : bool)
| AwaitPayment (ms : float)
| ClearCart
| Navigate (to : option string) (orderData : OrderData).

(** The request that [handleCheckout] prepares. *)
Definition paymentRequestOf (items : list Cart.CartItem) (totalPrice : float)
    (customerInfo : CustomerInfo) (selectedPaymentMethod : PaymentMethod)
  : PaymentRequest :=
  mkPaymentRequest
    (Cart.total (Cart.cartSummary totalPrice)) "USD" selectedPaymentMethod
    ((λ item, mkLineItem (Cart.id item) (Cart.title item) (Cart.price item)
                         (Js.or_1 (Cart.quantity item))) <$> items)
    customerInfo.

(** [handleCheckout] for the cart [items] with total [totalPrice], the
    form's [customerInfo] and [selectedPaymentMethod]; [now] is the
    [new Date()] of the order.  The [finally] resets the processing flag on
    every path that set it. *)
Definition handleCheckout (fmt : Js.Format) (draws : Draws) (now : Z)
    (items : list Cart.CartItem) (totalPrice : float)
    (customerInfo : CustomerInfo) (selectedPaymentMethod : PaymentMethod)
  : list effect :=
  let orderSummary := Cart.cartSummary totalPrice in
  if (length items =? 0)%nat then
    [Toast "Empty Cart" "Add items to your cart before checking out." true]
  else
    let paymentRequest :=
      paymentRequestOf items totalPrice customerInfo selectedPaymentMethod in
    let validationErrors := validatePaymentRequest paymentRequest in
    let body :=
      if (0 <? length validationErrors)%nat then
        [Toast "Validation Error" (String.concat ", " validationErrors) true]
      else
        let '(delay, result) := processPayment fmt draws paymentRequest in
        AwaitPayment delay ::
        (if success result then
           [ClearCart;
            Toast "Payment Successful!" (message result) false;
            Navigate (route "ORDERS")
              (mkOrderData (Payment.transactionId result)
                           (Payment.items paymentRequest)
                           (Cart.total orderSummary)
                           selectedPaymentMethod now)]
         else
           [Toast "Payment Failed"
                  (match error result with
                   | Some e => if Js.truthy_string e then e else message result
                   | None => message result
                   end)
                  true]) in
    [SetIsProcessing true] ++ body ++ [SetIsProcessing false].

(** Does the handler reach [processPayment]? *)
Definition awaitsPayment (e : effect) : bool :=
  match e with
  | AwaitPayment _ => true
  | _ => false
  end.

End Checkout.

(** ** The order history (pages/OrdersPage) *)

Module Orders.
Import Json.

Definition ORDERS_KEY : string := "notemart_orders".

(** What one run of the order-loading effect ends in: the [orders] the page
    shows and the storage; [Crashed] when it throws (nothing catches);
    [Unmodelled] when the persisted text is a date string, whose characters
    the model does not have. *)
Inductive run :=
| Finished (orders : json) (store : Storage)
| Crashed
| Unmodelled.

(** [[...v]]: the elements of an array, the characters of a string; other
    values are not iterable. *)
Definition spreadArray (v : json) : option (option (list json)) :=
  match v with
  | JArr elems => Some (Some elems)
  | JStr s => Some (Some ((λ c, JStr (String c EmptyString)) <$> list_ascii_of_string s))
  | JDate _ => None
  | JNull | JBool _ | JNum _ | JObj _ => Some None
  end.

(** The new order [{ id: `order_${Date.now()}`, ...orderData, status: 'completed' }]. *)
Definition newOrder (orderData : list (string * json)) (now : Z) : json :=
  JObj (setField "status" (JStr "completed")
          (spread [("id", JStr ("order_" +:+ Js.decimal now))] orderData)).

(** The effect that loads the orders; [orderData] is
    [location.state?.orderData] and [now] is [Date.now()]. *)
Definition loadOrders (orderData : option (list (string * json))) (now : Z)
    (store : Storage) : run :=
  let parsed :=
    match entries store !! ORDERS_KEY with
    | Some savedOrders =>
        if truthy_text savedOrders then
          match savedOrders with
          | Malformed _ => None
          | Doc v => Some v
          end
        else Some (JArr [])
    | None => Some (JArr [])
    end in
  match parsed with
  | None => Crashed
  | Some existingOrders =>
      match orderData with
      | Some data =>
          match spreadArray existingOrders with
          | Some (Some existing) =>
              let updatedOrders := JArr (newOrder data now :: existing) in
              if writable store
              then Finished updatedOrders
                            (mkStorage (<[ORDERS_KEY := Doc updatedOrders]> (entries store))
                                       true)
              else Crashed
          | Some None => Crashed
          | None => Unmodelled
          end
      | None => Finished existingOrders store
      end
  end.

(** The order list that the storage holds: empty when the key is absent or
    its text is empty, [None] when the text is not an array. *)
Definition persistedOrders (store : Storage) : option (list json) :=
  match entries store !! ORDERS_KEY with
  | None => Some []
  | Some (Doc (JArr orders)) => Some orders
  | Some (Malformed EmptyString) => Some []
  | Some _ => None
  end.

(** The spec's two operations are the two ways the effect runs. *)
Definition recordOrder (orderData : list (string * json)) (now : Z)
    (store : Storage) : run :=
  loadOrders (Some orderData) now store.

Definition listOrders (store : Storage) : run := loadOrders None 0 store.

(** Orders recorded one after the other; [None] when a run does not finish. *)
Fixpoint recordAll (calls : list (list (string * json) * Z)) (store : Storage)
  : option Storage :=
  match calls with
  | [] => Some store
  | (orderData, now) :: rest =>
      match recordOrder orderData now store with
      | Finished _ store' => recordAll rest store'
      | _ => None
      end
  end.

End Orders.

(** ** The note card and the cart page (components/NoteCard, pages/CartPage) *)

Module NoteCard.

Record NoteSeller := mkNoteSeller {
  sellerId : string;
  sellerName : string;
  sellerAvatar : option string;
  sellerRating : float;
  totalSales : Z;
}.

(** [NOTE_STATUS] *)
Inductive NoteStatus := PENDING | APPROVED | REJECTED.

Record Note := mkNote {
  id : string;
  title : string;
  description : string;
  price : float;
  thumbnail : string;
  subject : string;
  grade : option string;
  university : option string;
  seller : NoteSeller;
  rating : float;
  totalRatings : Z;
  downloads : Z;
  pages : Z;
  uploadedAt : Z;
  status : NoteStatus;
  tags : list string;
}.

(** [validateNote]: the double negation of the [&&] chain. *)
Definition validateNote (note : Note) : bool :=
  Js.truthy_string (id note)
  && Js.truthy_string (title note)
  && PrimFloat.leb 0%float (price note)
  && Js.truthy_string (thumbnail note)
  && Js.truthy_string (subject note)
  && Js.truthy_string (sellerId (seller note))
  && Js.truthy_string (sellerName (seller note))
  && PrimFloat.leb 0%float (rating note)
  && PrimFloat.leb (rating note) 5%float
  && (0 <=? totalRatings note)
  && (0 <=? downloads note)
  && (0 <? pages note).

(** The toast a click ends in, by its title. *)
Inductive toast :=
| AuthenticationRequired
| AlreadyInCart
| AddedToCart.

(** The object that [handleAddToCart] passes to [addItem]: it has no
    [addedAt] and no [quantity], which [addItem] sets. *)
Definition cartItemOf (note : Note) : Cart.CartItem :=
  Cart.mkCartItem (id note) (title note) (price note) (thumbnail note)
                  (sellerName (seller note)) (subject note) 0 None.

(** A click on the card's add button, with the cart as it is when the card
    was rendered: a card whose note fails [validateNote] renders the error
    and has no button; [isInCartProp] is the optional [isInCart] prop. *)
Definition handleAddToCart (isAuthenticated : bool) (isInCartProp : option bool)
    (note : Note) (now : Z) (cart : Cart.CartState)
  : option toast * Cart.CartState :=
  if negb (validateNote note) then (None, cart)
  else
    let isInCart := default (Cart.hasItem (id note) cart) isInCartProp in
    if negb isAuthenticated then (Some AuthenticationRequired, cart)
    else if isInCart then (Some AlreadyInCart, cart)
    else (Some AddedToCart, Cart.addItem (cartItemOf note) now cart).

(** [handleRemoveItem] of the cart page. *)
Definition handleRemoveItem (itemId : string) (cart : Cart.CartState)
  : Cart.CartState :=
  Cart.removeItem itemId cart.

(** [handleClearCart] of the cart page: nothing happens on an empty cart. *)
Definition handleClearCart (cart : Cart.CartState) : Cart.CartState :=
  if (length (Cart.items cart) =? 0)%nat then cart else Cart.clearCart cart.

(** What a visitor does to the cart through these handlers; the cards get
    no [isInCart] prop. *)
Inductive UiEvent :=
| ClickAdd (isAuthenticated : bool) (note : Note) (now : Z)
| ClickRemove (itemId : string)
| ClickClear.

Definition uiStep (cart : Cart.CartState) (e : UiEvent) : Cart.CartState :=
  match e with
  | ClickAdd isAuthenticated note now =>
      snd (handleAddToCart isAuthenticated None note now cart)
  | ClickRemove itemId => handleRemoveItem itemId cart
  | ClickClear => handleClearCart cart
  end.

Definition uiRun (events : list UiEvent) : Cart.CartState :=
  fold_left uiStep events Cart.initialState.

Definition sampleNote : Note :=
  mkNote "note-1" "Linear Algebra" "Lecture notes" 15.99%float "thumb.png"
         "Mathematics" None None
         (mkNoteSeller "seller-1" "Ada" None 4.5%float 12)
         4.5%float 10 120 42 1690000000000 APPROVED ["algebra"].

End NoteCard.

(** * Properties *)

(** ** Binary64 arithmetic *)

Section Binary64.
Import Js.

Lemma digits2_pos_size p : digits2_pos p = Pos.size p.
Proof. induction p; simpl; congruence. Qed.

Lemma digits2_pos_log2 p : Z.pos (digits2_pos p) = Z.log2 (Z.pos p) + 1.
Proof.
  rewrite digits2_pos_size. destruct p; simpl; lia.
Qed.

Lemma iter_xO_pow (m d : positive) :
  Z.pos (Pos.iter xO m d) = Z.pos m * 2 ^ Z.pos d.
Proof.
  change (Pos.iter xO m d) with (shift_pos d m).
  rewrite shift_pos_correct. change (Z.pow_pos 2 d) with (2 ^ Z.pos d). lia.
Qed.

Lemma iter_pos_iter {A} (f : A → A) p x : SpecFloat.iter_pos f p x = Pos.iter f x p.
Proof.
  revert x. induction p as [p IH|p IH|]; intros x; simpl; [|by rewrite !IH|done].
  by rewrite !IH, <- !Pos.iter_swap.
Qed.

Lemma shr_1_even (m : positive) :
  shr_1 (Build_shr_record (Z.pos m~0) false false)
  = Build_shr_record (Z.pos m) false false.
Proof. done. Qed.

Lemma iter_shr_1 (n : nat) (m q : positive) :
  Z.pos m = Z.pos q * 2 ^ Z.of_nat n →
  Nat.iter n shr_1 (Build_shr_record (Z.pos m) false false)
  = Build_shr_record (Z.pos q) false false.
Proof.
  revert m. induction n as [|n IH]; intros m Hm.
  - simpl in *. f_equal. lia.
  - rewrite Nat.iter_succ_r.
    rewrite Nat2Z.inj_succ, Z.pow_succ_r in Hm by lia.
    destruct m as [m|m|]; [lia| |lia].
    rewrite shr_1_even. apply IH. lia.
Qed.

Lemma shr_exact (m q p : positive) e :
  Z.pos m = Z.pos q * 2 ^ Z.pos p →
  shr (Build_shr_record (Z.pos m) false false) e (Z.pos p)
  = (Build_shr_record (Z.pos q) false false, e + Z.pos p).
Proof.
  intros Hm. unfold shr. f_equal.
  rewrite iter_pos_iter, Pos2Nat.inj_iter. apply iter_shr_1.
  by rewrite positive_nat_Z.
Qed.

(** A mantissa of 53 bits with an exponent in range is left as it is. *)
Lemma binary_round_aux_canonical s (m : positive) E :
  Z.log2 (Z.pos m) = 52 → -1074 ≤ E ≤ 971 →
  binary_round_aux 53 1024 s (Z.pos m) E loc_Exact = S754_finite s m E.
Proof.
  intros Hm HE. unfold binary_round_aux, shr_fexp.
  cbn [shr_record_of_loc Zdigits2]. rewrite digits2_pos_log2, Hm.
  replace (fexp 53 1024 (52 + 1 + E) - E) with 0 by (unfold fexp, emin; lia).
  cbn [shr shr_m loc_of_shr_record round_nearest_even Zdigits2].
  rewrite digits2_pos_log2, Hm.
  replace (fexp 53 1024 (52 + 1 + E) - E) with 0 by (unfold fexp, emin; lia).
  cbn [shr shr_m]. by rewrite (proj2 (Z.leb_le E (1024 - 53))) by lia.
Qed.

(** Rounding a number that binary64 holds gives that number: [u] has at
    most 53 bits and is scaled by a power of two in the normal range. *)
Lemma binary_round_exact s (m u : positive) (j e : Z) :
  0 ≤ j →
  Z.pos m = Z.pos u * 2 ^ j →
  Z.log2 (Z.pos u) ≤ 52 →
  -1074 ≤ Z.log2 (Z.pos u) + j + e - 52 ≤ 971 →
  ∃ m', binary_round 53 1024 s m e
        = S754_finite s m' (Z.log2 (Z.pos u) + j + e - 52)
        ∧ Z.pos m' = Z.pos u * 2 ^ (52 - Z.log2 (Z.pos u)).
Proof.
  intros Hj Hm Hu HE. set (l := Z.log2 (Z.pos u)) in *.
  assert (0 ≤ l) as Hl by apply Z.log2_nonneg.
  assert (Z.log2 (Z.pos m) = l + j) as Hlm.
  { rewrite Hm, Z.log2_mul_pow2 by lia. lia. }
  unfold binary_round, shl_align. rewrite digits2_pos_log2, Hlm.
  replace (fexp 53 1024 (l + j + 1 + e)) with (l + j + e - 52)
    by (unfold fexp, emin; lia).
  destruct (l + j + e - 52 - e) as [|p|p] eqn:Hshift.
  - exists m. split.
    + replace (l + j + e - 52) with e by lia.
      apply binary_round_aux_canonical; lia.
    + rewrite Hm. f_equal. f_equal. lia.
  - assert (∃ q, Z.pos q = Z.pos u * 2 ^ (52 - l)) as [q Hq].
    { exists (Z.to_pos (Z.pos u * 2 ^ (52 - l))). rewrite Z2Pos.id; [done|].
      apply Z.mul_pos_pos; [lia|]. apply Z.pow_pos_nonneg; lia. }
    exists q. split; [|done].
    unfold binary_round_aux, shr_fexp.
    cbn [shr_record_of_loc Zdigits2]. rewrite digits2_pos_log2, Hlm.
    replace (fexp 53 1024 (l + j + 1 + e) - e) with (Z.pos p)
      by (unfold fexp, emin; lia).
    rewrite (shr_exact m q p).
    2:{ rewrite Hm, Hq, <- Z.mul_assoc, <- Z.pow_add_r by lia.
        f_equal. f_equal. lia. }
    cbn [shr_m loc_of_shr_record round_nearest_even Zdigits2].
    assert (Z.log2 (Z.pos q) = 52) as Hlq.
    { rewrite Hq, Z.log2_mul_pow2 by lia. lia. }
    rewrite digits2_pos_log2, Hlq.
    replace (fexp 53 1024 (52 + 1 + (e + Z.pos p)) - (e + Z.pos p)) with 0
      by (unfold fexp, emin; lia).
    cbn [shr shr_m].
    rewrite (proj2 (Z.leb_le (e + Z.pos p) (1024 - 53))) by lia.
    f_equal. lia.
  - exists (Pos.iter xO m p). split.
    + apply binary_round_aux_canonical; [|lia].
      rewrite iter_xO_pow, Z.log2_mul_pow2 by lia. lia.
    + rewrite iter_xO_pow, Hm, <- Z.mul_assoc, <- Z.pow_add_r by lia.
      f_equal. f_equal. lia.
Qed.

Lemma valid_denotes s v m E :
  denotes v m E → valid_binary (S754_finite s m E) = true.
Proof.
  intros (Hm & HE & _).
  unfold valid_binary, SpecFloat.valid_binary, bounded, canonical_mantissa.
  unfold prec, emax.
  rewrite digits2_pos_log2, Hm. apply andb_true_iff. split.
  - apply Z.eqb_eq. unfold fexp, emin. lia.
  - apply Z.leb_le. lia.
Qed.

Lemma Z_of_float_denotes x v m E :
  Prim2SF x = S754_finite false m E → denotes v m E → Z_of_float x = Some v.
Proof.
  intros Hx (_ & HE & Hv). unfold Z_of_float. rewrite Hx.
  destruct (Z.leb_spec 0 E) as [Hpos|Hneg].
  - rewrite Z.max_r, Z.max_l in Hv by lia. f_equal. lia.
  - rewrite Z.max_l, Z.max_r in Hv by lia. rewrite Z.mul_1_r in Hv.
    rewrite Hv, Z.mod_mul, Z.div_mul by (apply Z.pow_nonzero; lia). done.
Qed.

Lemma binary_round_denotes s (M : positive) (e v : Z) :
  0 < v ≤ 2 ^ 53 → -1000 ≤ e ≤ 0 → Z.pos M = v * 2 ^ (- e) →
  ∃ m E, binary_round 53 1024 s M e = S754_finite s m E ∧ denotes v m E.
Proof.
  intros Hv He HM. destruct (decide (v = 2 ^ 53)) as [->|Hne].
  - destruct (binary_round_exact s M 1 (53 - e) e) as (m & Hround & Hm);
      [lia| |simpl; lia..|].
    { rewrite HM, <- Z.pow_add_r by lia. rewrite Z.mul_1_l. f_equal; lia. }
    exists m, 1. split.
    + rewrite Hround. f_equal. simpl. lia.
    + simpl in Hm. split; [|split; [lia|]].
      * rewrite Hm. done.
      * rewrite Hm. done.
  - destruct v as [|u|u]; [lia| |lia].
    assert (Z.log2 (Z.pos u) ≤ 52) as Hu.
    { assert (Z.log2 (Z.pos u) < 53); [|lia].
      apply Z.log2_lt_pow2; lia. }
    pose proof (Z.log2_nonneg (Z.pos u)) as Hl.
    destruct (binary_round_exact s M u (- e) e) as (m & Hround & Hm);
      [lia|done|done|lia|].
    exists m, (Z.log2 (Z.pos u) - 52). split.
    + rewrite Hround. f_equal. lia.
    + split; [|split; [lia|]].
      * rewrite Hm, Z.log2_mul_pow2 by lia. lia.
      * rewrite Z.max_l, Z.max_r by lia. rewrite Hm, Z.mul_1_r.
        f_equal. f_equal. lia.
Qed.

(** Below [2^53] the exponent is not positive. *)
Lemma denotes_below v m E :
  0 < v < 2 ^ 53 → denotes v m E → -52 ≤ E ≤ 0 ∧ Z.pos m = v * 2 ^ (- E).
Proof.
  intros Hv (Hm & HE & Hval).
  assert (2 ^ 52 ≤ Z.pos m) as Hlow.
  { rewrite <- Hm. apply Z.log2_spec. lia. }
  destruct (Z.leb_spec E 0) as [Hle|Hgt].
  - rewrite Z.max_l, Z.max_r in Hval by lia. rewrite Z.mul_1_r in Hval.
    split; [|done]. split; [|done].
    assert (52 = - E + Z.log2 v); [|pose proof (Z.log2_nonneg v); lia].
    rewrite <- Hm, Hval. apply Z.log2_mul_pow2; lia.
  - rewrite Z.max_r, Z.max_l in Hval by lia. rewrite Z.mul_1_r in Hval.
    assert (2 ^ 1 ≤ 2 ^ E) by (apply Z.pow_le_mono_r; lia). nia.
Qed.

(** The float of an integer up to [2^53] is that integer. *)
Lemma float_of_Z_denotes (v : Z) :
  0 < v ≤ 2 ^ 53 →
  ∃ m E, Prim2SF (float_of_Z v) = S754_finite false m E ∧ denotes v m E.
Proof.
  intros Hv. unfold float_of_Z. destruct v as [|M|M]; [lia| |lia].
  destruct (binary_round_denotes false M 0 (Z.pos M)) as (m & E & Hround & Hden);
    [done|lia|simpl; lia|].
  exists m, E. split; [|done]. cbn [binary_normalize]. rewrite Hround.
  apply Prim2SF_SF2Prim. by eapply valid_denotes.
Qed.

Lemma float_of_Z_0 : Prim2SF (float_of_Z 0) = S754_zero false.
Proof. done. Qed.

Lemma shl_align_le (m : positive) (e e' : Z) :
  e' ≤ e → Z.pos (fst (shl_align m e e')) = Z.pos m * 2 ^ (e - e').
Proof.
  intros He. unfold shl_align. destruct (e' - e) as [|p|p] eqn:Hd; [|lia|].
  - simpl. replace (e - e') with 0 by lia. lia.
  - simpl. rewrite iter_xO_pow. f_equal. f_equal. lia.
Qed.

(** Binary64 addition of two natural numbers is exact as long as the sum is
    at most [2^53]. *)
Lemma plus_exact (a b : Z) :
  0 ≤ a → 0 ≤ b → a + b ≤ 2 ^ 53 → plus a b = a + b.
Proof.
  intros Ha Hb Hsum. unfold plus.
  enough (Z_of_float (float_of_Z a + float_of_Z b) = Some (a + b)) as -> by done.
  destruct (decide (a = 0)) as [->|Ha0]; [|destruct (decide (b = 0)) as [->|Hb0]].
  - destruct (decide (b = 0)) as [->|Hb0]; [done|].
    destruct (float_of_Z_denotes b) as (m & E & Hb' & Hden); [lia|].
    apply (Z_of_float_denotes _ _ m E); [|done].
    by rewrite add_spec, float_of_Z_0, Hb'.
  - destruct (float_of_Z_denotes a) as (m & E & Ha' & Hden); [lia|].
    rewrite Z.add_0_r. apply (Z_of_float_denotes _ _ m E); [|done].
    by rewrite add_spec, float_of_Z_0, Ha'.
  - destruct (float_of_Z_denotes a) as (ma & ea & Ha' & Hdena); [lia|].
    destruct (float_of_Z_denotes b) as (mb & eb & Hb' & Hdenb); [lia|].
    destruct (denotes_below a ma ea) as (Hea & Hma); [lia|done|].
    destruct (denotes_below b mb eb) as (Heb & Hmb); [lia|done|].
    enough (∃ m E, Prim2SF (float_of_Z a + float_of_Z b) = S754_finite false m E
                   ∧ denotes (a + b) m E) as (m & E & Hx & Hden)
      by by apply (Z_of_float_denotes _ _ m E).
    rewrite add_spec, Ha', Hb'. unfold SF64add, SFadd. cbn [cond_Zopp].
    set (ez := Z.min ea eb).
    pose proof (shl_align_le ma ea ez ltac:(lia)) as Hsa.
    pose proof (shl_align_le mb eb ez ltac:(lia)) as Hsb.
    destruct (Z.pos (fst (shl_align ma ea ez)) + Z.pos (fst (shl_align mb eb ez)))
      as [|M|M] eqn:HM; [lia| |lia].
    cbn [binary_normalize].
    apply (binary_round_denotes false M ez (a + b)); [lia|lia|].
    rewrite <- HM, Hsa, Hsb, Hma, Hmb, <- !Z.mul_assoc, <- !Z.pow_add_r by lia.
    replace (- ea + (ea - ez)) with (- ez) by lia.
    replace (- eb + (eb - ez)) with (- ez) by lia. lia.
Qed.

(** *** Rounding in general, and the wait of the payment service *)

Lemma shr_1_spec (q : Z) (r s : bool) :
  0 ≤ q →
  shr_1 (Build_shr_record q r s)
  = Build_shr_record (q / 2) (Z.odd q) (r || s).
Proof.
  intros Hq. rewrite <- Z.div2_div.
  destruct q as [|[p|p|]|]; try done.
Qed.

Lemma iter_shr_1_floor (n : nat) (M : Z) :
  0 ≤ M →
  ∃ r s, Nat.iter n shr_1 (Build_shr_record M false false)
         = Build_shr_record (M / 2 ^ Z.of_nat n) r s
         ∧ (M mod 2 ^ Z.of_nat n = 0 → r = false ∧ s = false).
Proof.
  intros HM. induction n as [|n (r & s & IH & Hexact)].
  - exists false, false. split; [|done]. simpl. by rewrite Z.div_1_r.
  - cbn [Nat.iter nat_rect]. change (nat_rect _ _ _ n) with
      (Nat.iter n shr_1 (Build_shr_record M false false)).
    rewrite IH, shr_1_spec by (apply Z.div_pos; lia).
    assert (2 ^ Z.of_nat (S n) = 2 ^ Z.of_nat n * 2) as Hpow.
    { rewrite Nat2Z.inj_succ, Z.pow_succ_r by lia. lia. }
    eexists _, _. split.
    + f_equal. rewrite Hpow, Z.div_div by lia. done.
    + intros Hmod. rewrite Hpow in Hmod.
      apply Z.mod_divide in Hmod as [c Hc]; [|lia].
      assert (M = (2 * c) * 2 ^ Z.of_nat n) as HM' by lia.
      assert (M mod 2 ^ Z.of_nat n = 0) as H0.
      { rewrite HM'. apply Z.mod_mul. lia. }
      destruct (Hexact H0) as [-> ->].
      assert (M / 2 ^ Z.of_nat n = 2 * c) as ->.
      { rewrite HM'. apply Z.div_mul. lia. }
      split; [|done]. by rewrite Z.odd_mul.
Qed.

Lemma round_nearest_even_cases (q : Z) (r s : bool) :
  let k := round_nearest_even q (loc_of_shr_record (Build_shr_record q r s)) in
  k = q ∨ (k = q + 1 ∧ (r = true ∨ s = true)).
Proof.
  destruct r, s; simpl; try destruct (Z.even q); auto.
Qed.

Lemma second_stage (k e' : Z) :
  0 < k ≤ 2 ^ 53 → -1074 ≤ e' < 971 → (e' = -1074 ∨ 2 ^ 52 ≤ k) →
  ∃ m e,
    (let '(mrs, e2) := shr_fexp 53 1024 k e' loc_Exact in
     match shr_m mrs with
     | Z0 => S754_zero false
     | Z.pos m =>
         if e2 <=? 1024 - 53 then S754_finite false m e2
         else S754_infinity false
     | Z.neg _ => S754_nan
     end) = S754_finite false m e
    ∧ valid_binary (S754_finite false m e) = true
    ∧ e' ≤ e ∧ Z.pos m * 2 ^ (e - e') = k
    ∧ (2 ^ 52 ≤ k → Z.log2 (Z.pos m) = 52).
Proof.
  intros Hk He Hcase. destruct k as [|K|K]; [lia| |lia].
  unfold shr_fexp. cbn [shr_record_of_loc Zdigits2]. rewrite digits2_pos_log2.
  pose proof (Z.log2_nonneg (Z.pos K)) as Hl0.
  destruct (decide (Z.pos K = 2 ^ 53)) as [Heq|Hne].
  - rewrite Heq. change (Z.log2 (2 ^ 53)) with 53.
    replace (fexp 53 1024 (53 + 1 + e') - e') with 1
      by (unfold fexp, emin; lia).
    rewrite <- Heq.
    rewrite (shr_exact K (2 ^ 52)%positive 1) by (rewrite Heq; done).
    cbn [shr_m]. rewrite (proj2 (Z.leb_le (e' + 1) (1024 - 53))) by lia.
    exists (2 ^ 52)%positive, (e' + 1). split; [done|]. split.
    { unfold valid_binary, SpecFloat.valid_binary, bounded, canonical_mantissa.
      unfold prec, emax. rewrite digits2_pos_log2.
      change (Z.log2 (Z.pos (2 ^ 52))) with 52. apply andb_true_iff. split.
      - apply Z.eqb_eq. unfold fexp, emin. lia.
      - apply Z.leb_le. lia. }
    split; [lia|]. split; [|done].
    replace (e' + 1 - e') with 1 by lia. rewrite Heq. done.
  - assert (Z.log2 (Z.pos K) ≤ 52) as Hl.
    { assert (Z.log2 (Z.pos K) < 53); [|lia]. apply Z.log2_lt_pow2; lia. }
    assert (fexp 53 1024 (Z.log2 (Z.pos K) + 1 + e') = e') as Hfexp.
    { unfold fexp, emin. destruct Hcase as [->|Hlow]; [lia|].
      assert (52 ≤ Z.log2 (Z.pos K)) by (apply Z.log2_le_pow2; lia). lia. }
    rewrite Hfexp, Z.sub_diag. cbn [shr shr_m].
    rewrite (proj2 (Z.leb_le e' (1024 - 53))) by lia.
    exists K, e'. split; [done|]. split.
    { unfold valid_binary, SpecFloat.valid_binary, bounded, canonical_mantissa.
      unfold prec, emax. rewrite digits2_pos_log2, Hfexp.
      apply andb_true_iff. split; [apply Z.eqb_eq; done|apply Z.leb_le; lia]. }
    split; [lia|]. split; [rewrite Z.sub_diag; lia|].
    intros Hlow. assert (52 ≤ Z.log2 (Z.pos K)) by (apply Z.log2_le_pow2; lia).
    lia.
Qed.

(** What rounding gives for a positive number [M * 2^E]: the mantissa is cut
    at the exponent [e'] of the format and rounded to one of its two
    neighbours there, and to itself when nothing is cut off. *)
Lemma binary_round_aux_spec (M : positive) (E : Z) :
  let e' := Z.max (Z.log2 (Z.pos M) + 1 + E - 53) (-1074) in
  let q := Z.pos M / 2 ^ (e' - E) in
  E ≤ e' → e' < 971 → 0 < q →
  ∃ m e k,
    binary_round_aux 53 1024 false (Z.pos M) E loc_Exact = S754_finite false m e
    ∧ valid_binary (S754_finite false m e) = true
    ∧ e' ≤ e ∧ Z.pos m * 2 ^ (e - e') = k
    ∧ (k = q ∨ (k = q + 1 ∧ Z.pos M mod 2 ^ (e' - E) ≠ 0))
    ∧ (-1074 ≤ Z.log2 (Z.pos M) + 1 + E - 53 → Z.log2 (Z.pos m) = 52).
Proof.
  intros e' q HE He Hq.
  pose proof (Z.log2_nonneg (Z.pos M)) as Hl0.
  pose proof (Z.log2_spec (Z.pos M) ltac:(lia)) as [Hlow Hhigh].
  set (l := Z.log2 (Z.pos M)) in *.
  (* the size of the cut mantissa *)
  assert (q ≤ Z.pos M) as Hq_le.
  { subst q. apply Z.div_le_upper_bound; [apply Z.pow_pos_nonneg; lia|].
    assert (0 < 2 ^ (e' - E)) by (apply Z.pow_pos_nonneg; lia). nia. }
  assert (q < 2 ^ 53
          ∧ ((e' = -1074 ∧ l + 1 + E - 53 < -1074) ∨ 2 ^ 52 ≤ q))
    as [Hq53 Hqcase].
  { subst q. destruct (Z.max_spec (l + 1 + E - 53) (-1074)) as [[Hlt Hmax]|[Hge Hmax]];
      fold e' in Hmax.
    - split; [|by left].
      apply Z.div_lt_upper_bound; [apply Z.pow_pos_nonneg; lia|].
      rewrite <- Z.pow_add_r by lia.
      eapply Z.lt_le_trans; [exact Hhigh|]. apply Z.pow_le_mono_r; lia.
    - assert (e' - E = l - 52) as -> by lia. split.
      + apply Z.div_lt_upper_bound; [apply Z.pow_pos_nonneg; lia|].
        rewrite <- Z.pow_add_r by lia. replace (l - 52 + 53) with (Z.succ l) by lia.
        done.
      + right. apply Z.div_le_lower_bound; [apply Z.pow_pos_nonneg; lia|].
        rewrite <- Z.pow_add_r by lia. by replace (l - 52 + 52) with l by lia. }
  unfold binary_round_aux.
  assert (∃ r s, shr_fexp 53 1024 (Z.pos M) E loc_Exact
                 = (Build_shr_record q r s, e')
                 ∧ (r = true ∨ s = true → Z.pos M mod 2 ^ (e' - E) ≠ 0))
    as (r & s & -> & Hinexact).
  { unfold shr_fexp. cbn [shr_record_of_loc Zdigits2].
    rewrite digits2_pos_log2. fold l.
    replace (fexp 53 1024 (l + 1 + E)) with e'
      by (subst e'; unfold fexp, emin; f_equal; lia).
    subst q. destruct (e' - E) as [|p|p] eqn:Hn; [| |lia].
    - exists false, false. split.
      + cbn [shr]. rewrite Z.div_1_r. f_equal. lia.
      + by intros [|].
    - cbn [shr]. rewrite iter_pos_iter, Pos2Nat.inj_iter.
      destruct (iter_shr_1_floor (Pos.to_nat p) (Z.pos M)) as (r & s & Hiter & Hex);
        [lia|].
      unfold Nat.iter in Hiter. rewrite Hiter.
      rewrite positive_nat_Z in *. exists r, s. split; [f_equal; lia|].
      intros Hrs Hmod. destruct (Hex Hmod) as [-> ->]. by destruct Hrs. }
  cbn [shr_m].
  pose proof (round_nearest_even_cases q r s) as Hk. cbv zeta in Hk.
  set (k := round_nearest_even q _) in *.
  destruct (second_stage k e') as (m & e & Hres & Hvalid & Hee & Hval & Hlog).
  { destruct Hk as [->|[-> _]]; lia. }
  { lia. }
  { destruct Hqcase as [[? _]|?]; [by left|right].
    destruct Hk as [->|[-> _]]; lia. }
  exists m, e, k. rewrite Hres.
  split; [done|]. split; [done|]. split; [done|]. split; [done|]. split.
  - destruct Hk as [Hk|[Hk Hrs]]; [by left|right]. split; [done|].
    by apply Hinexact.
  - intros Hnormal. apply Hlog. destruct Hqcase as [[_ ?]|?]; [lia|].
    destruct Hk as [->|[-> _]]; lia.
Qed.

(** Rounding keeps a number between two bounds that the format holds at the
    exponent of the number. *)
Lemma binary_round_aux_between (M : positive) (E lo hi : Z) :
  let e' := Z.max (Z.log2 (Z.pos M) + 1 + E - 53) (-1074) in
  E ≤ e' → e' < 971 → 1 ≤ lo →
  lo * 2 ^ (e' - E) ≤ Z.pos M ≤ hi * 2 ^ (e' - E) →
  ∃ m e,
    binary_round_aux 53 1024 false (Z.pos M) E loc_Exact = S754_finite false m e
    ∧ valid_binary (S754_finite false m e) = true
    ∧ e' ≤ e
    ∧ lo ≤ Z.pos m * 2 ^ (e - e') ≤ hi
    ∧ (-1074 ≤ Z.log2 (Z.pos M) + 1 + E - 53 → Z.log2 (Z.pos m) = 52).
Proof.
  intros e' HE He Hlo [Hlow Hhigh].
  assert (0 < 2 ^ (e' - E)) as Hpow by (apply Z.pow_pos_nonneg; lia).
  assert (lo ≤ Z.pos M / 2 ^ (e' - E)) as Hq.
  { apply Z.div_le_lower_bound; lia. }
  destruct (binary_round_aux_spec M E HE He ltac:(fold e'; lia))
    as (m & e & k & Hres & Hvalid & Hee & Hval & Hk & Hlog).
  fold e' in Hval, Hk, Hee.
  exists m, e. split; [done|]. split; [done|]. split; [done|].
  split; [|done]. rewrite Hval.
  pose proof (Z.mul_div_le (Z.pos M) (2 ^ (e' - E)) Hpow) as Hfloor.
  destruct Hk as [->|[-> Hmod]].
  - split; [done|]. apply Z.div_le_upper_bound; lia.
  - split; [lia|].
    assert (Z.pos M / 2 ^ (e' - E) < hi); [|lia].
    apply Z.div_lt_upper_bound; [done|].
    pose proof (Z.mod_pos_bound (Z.pos M) (2 ^ (e' - E)) Hpow) as Hrem.
    pose proof (Z.div_mod (Z.pos M) (2 ^ (e' - E)) ltac:(lia)) as Hdm.
    destruct (decide (Z.pos M = hi * 2 ^ (e' - E))) as [Heq|Hne]; [|lia].
    exfalso. apply Hmod. rewrite Heq. apply Z.mod_mul. lia.
Qed.

Lemma Prim2SF_2000 : Prim2SF 2000 = S754_finite false (2000 * 2 ^ 42) (-42).
Proof. by vm_compute. Qed.
Lemma Prim2SF_3000 : Prim2SF 3000 = S754_finite false (3000 * 2 ^ 41) (-41).
Proof. by vm_compute. Qed.
Lemma Prim2SF_5000 : Prim2SF 5000 = S754_finite false (5000 * 2 ^ 40) (-40).
Proof. by vm_compute. Qed.
Lemma Prim2SF_1 : Prim2SF 1 = S754_finite false (2 ^ 52) (-52).
Proof. by vm_compute. Qed.

(** Normal numbers compare as their values do; [K] scales the values to
    integers. *)
Lemma SFleb_normal (K : Z) (m1 m2 : positive) (e1 e2 : Z) :
  Z.log2 (Z.pos m1) = 52 → Z.log2 (Z.pos m2) = 52 →
  - K ≤ e1 → - K ≤ e2 →
  Z.pos m1 * 2 ^ (e1 + K) ≤ Z.pos m2 * 2 ^ (e2 + K) →
  SFleb (S754_finite false m1 e1) (S754_finite false m2 e2) = true.
Proof.
  intros H1 H2 He1 He2 Hle. unfold SFleb, SFcompare.
  pose proof (Z.log2_spec (Z.pos m1) ltac:(lia)) as [Hlo1 Hhi1].
  pose proof (Z.log2_spec (Z.pos m2) ltac:(lia)) as [Hlo2 Hhi2].
  rewrite H1 in *. rewrite H2 in *.
  destruct (Z.compare_spec e1 e2) as [->|Hlt|Hgt]; [|done|].
  - assert (0 < 2 ^ (e2 + K)) by (apply Z.pow_pos_nonneg; lia).
    assert (Z.pos m1 ≤ Z.pos m2) as Hm by nia.
    rewrite Pos.compare_cont_spec. cbn [Pos.switch_Eq].
    destruct (Pos.compare_spec m1 m2); [done|done|lia].
  - exfalso.
    assert (2 ^ (e1 + K) = 2 ^ (e1 - e2 - 1) * 2 * 2 ^ (e2 + K)) as Hpow.
    { rewrite <- (Z.pow_1_r 2) at 3. rewrite <- !Z.pow_add_r by lia.
      f_equal. lia. }
    assert (0 < 2 ^ (e2 + K)) by (apply Z.pow_pos_nonneg; lia).
    assert (0 < 2 ^ (e1 - e2 - 1)) by (apply Z.pow_pos_nonneg; lia).
    change (2 ^ Z.succ 52) with (2 * 2 ^ 52) in *.
    rewrite Hpow in Hle. nia.
Qed.

(** A binary64 value in [0, 1) times 3000 is at most 3000. *)
Lemma mul_3000 (K : Z) (m : positive) (e : Z) :
  1074 ≤ K →
  valid_binary (S754_finite false m e) = true →
  SFltb (S754_finite false m e) (S754_finite false (2 ^ 52) (-52)) = true →
  ∃ my ey,
    SFmul 53 1024 (S754_finite false m e) (S754_finite false (3000 * 2 ^ 41) (-41))
    = S754_finite false my ey
    ∧ -1074 ≤ ey
    ∧ Z.pos my * 2 ^ (ey + K) ≤ 3000 * 2 ^ K.
Proof.
  intros HK Hvalid Hlt.
  unfold valid_binary, SpecFloat.valid_binary, bounded, canonical_mantissa in Hvalid.
  unfold prec, emax in Hvalid. rewrite digits2_pos_log2 in Hvalid.
  apply andb_true_iff in Hvalid as [Hcanon _]. apply Z.eqb_eq in Hcanon.
  unfold fexp, emin in Hcanon.
  pose proof (Z.log2_nonneg (Z.pos m)) as Hl0.
  pose proof (Z.log2_spec (Z.pos m) ltac:(lia)) as [Hmlo Hmhi].
  set (l := Z.log2 (Z.pos m)) in *.
  assert (e ≤ -53) as He.
  { unfold SFltb, SFcompare in Hlt.
    destruct (Z.compare_spec e (-52)) as [->|?|?]; [|lia|done].
    rewrite Pos.compare_cont_spec in Hlt. cbn [Pos.switch_Eq] in Hlt.
    destruct (Pos.compare_spec m (2 ^ 52)) as [?|Hm|?]; try done.
    assert (l = 52) as Hl by lia. rewrite Hl in Hmlo.
    assert (Z.pos m < 2 ^ 52) by lia. lia. }
  assert (l ≤ 52 ∧ -1074 ≤ e) as [Hl He'] by lia.
  assert (Z.pos m < 2 ^ (- e)) as Hm1.
  { eapply Z.lt_le_trans; [exact Hmhi|]. apply Z.pow_le_mono_r; lia. }
  cbn [SFmul xorb].
  set (M := (m * (3000 * 2 ^ 41))%positive).
  assert (Z.pos M = Z.pos m * (3000 * 2 ^ 41)) as HM by (subst M; lia).
  assert (0 < 2 ^ (- e)) as Hpe by (apply Z.pow_pos_nonneg; lia).
  assert (Z.pos M < 2 ^ (53 - e)) as HMhi.
  { replace (53 - e) with (53 + - e) by lia. rewrite Z.pow_add_r by lia.
    assert (3000 * 2 ^ 41 < 2 ^ 53) by done. nia. }
  assert (Z.log2 (Z.pos M) ≤ 52 - e) as HlM.
  { assert (Z.log2 (Z.pos M) < 53 - e); [|lia]. apply Z.log2_lt_pow2; lia. }
  assert (l + 52 ≤ Z.log2 (Z.pos M)) as HlM'.
  { rewrite HM. etransitivity; [|apply Z.log2_mul_below; lia].
    change (Z.log2 (3000 * 2 ^ 41)) with 52. done. }
  pose proof (Z.log2_spec (Z.pos M) ltac:(lia)) as [HMlo _].
  set (lM := Z.log2 (Z.pos M)) in *.
  set (E := e + -41).
  set (e' := Z.max (lM + 1 + E - 53) (-1074)).
  assert (e ≤ e' ≤ -41) as [He1 He2] by (subst e' E; lia).
  assert (0 < 2 ^ (e' - E)) as Hpn by (apply Z.pow_pos_nonneg; subst E; lia).
  destruct (binary_round_aux_between M E 1 (3000 * 2 ^ (- e')))
    as (my & ey & Hres & _ & Hey & [_ Hval] & _).
  - fold lM e'. subst E. lia.
  - fold lM e'. lia.
  - done.
  - fold lM e'. split.
    + rewrite Z.mul_1_l.
      destruct (Z.max_spec (lM + 1 + E - 53) (-1074)) as [[Hc Hmax]|[Hc Hmax]];
        fold e' in Hmax.
      * etransitivity; [|exact HMlo]. apply Z.pow_le_mono_r; subst E; lia.
      * etransitivity; [|exact HMlo]. apply Z.pow_le_mono_r; subst E; lia.
    + rewrite <- Z.mul_assoc, <- Z.pow_add_r by (subst E; lia).
      replace (- e' + (e' - E)) with (41 + - e) by (subst E; lia).
      rewrite Z.pow_add_r by lia. rewrite HM. nia.
  - fold lM e' in Hey, Hval. exists my, ey. split; [done|]. split; [lia|].
    replace (ey + K) with ((ey - e') + (e' + K)) by lia.
    rewrite Z.pow_add_r, Z.mul_assoc by lia.
    assert (0 < 2 ^ (e' + K)) by (apply Z.pow_pos_nonneg; lia).
    assert (3000 * 2 ^ K = 3000 * 2 ^ (- e') * 2 ^ (e' + K)) as ->.
    { rewrite <- Z.mul_assoc, <- Z.pow_add_r by lia. do 2 f_equal. lia. }
    nia.
Qed.

Lemma shl_align_ge (m : positive) (e e' : Z) :
  e ≤ e' → shl_align m e e' = (m, e).
Proof. intros He. unfold shl_align. by destruct (e' - e) eqn:Hd; [| |lia]. Qed.

(** 2000 plus a binary64 value in (0, 3000] is between 2000 and 5000. *)
Lemma add_2000 (K : Z) (my : positive) (ey : Z) :
  1074 ≤ K → -1074 ≤ ey →
  Z.pos my * 2 ^ (ey + K) ≤ 3000 * 2 ^ K →
  ∃ m e,
    SFadd 53 1024 (S754_finite false (2000 * 2 ^ 42) (-42))
                  (S754_finite false my ey)
    = S754_finite false m e
    ∧ Z.log2 (Z.pos m) = 52 ∧ - K ≤ e
    ∧ 2000 * 2 ^ K ≤ Z.pos m * 2 ^ (e + K) ≤ 5000 * 2 ^ K.
Proof.
  intros HK Hey Hy. cbn [SFadd cond_Zopp].
  set (ez := Z.min (-42) ey).
  pose proof (shl_align_le (2000 * 2 ^ 42) (-42) ez ltac:(lia)) as Hsa.
  pose proof (shl_align_le my ey ez ltac:(lia)) as Hsb.
  destruct (Z.pos (fst (shl_align (2000 * 2 ^ 42) (-42) ez))
            + Z.pos (fst (shl_align my ey ez))) as [|A|A] eqn:HA; [lia| |lia].
  rewrite Hsa, Hsb in HA. clear Hsa Hsb.
  assert (0 < 2 ^ (ez + K)) as Hpz by (apply Z.pow_pos_nonneg; lia).
  assert (0 < 2 ^ K) as HpK by (apply Z.pow_pos_nonneg; lia).
  (* the value of the exact sum *)
  assert (Z.pos A * 2 ^ (ez + K) = 2000 * 2 ^ K + Z.pos my * 2 ^ (ey + K))
    as Hsum.
  { rewrite <- HA, Z.mul_add_distr_r, <- !Z.mul_assoc, <- !Z.pow_add_r by lia.
    replace (-42 - ez + (ez + K)) with (-42 + K) by lia.
    replace (ey - ez + (ez + K)) with (ey + K) by lia.
    f_equal. replace K with (42 + (-42 + K)) at 2 by lia.
    rewrite (Z.pow_add_r 2 42) by lia. change (Z.pos (2000 * 2 ^ 42)) with (2000 * 2 ^ 42).
    lia. }
  assert (2000 * 2 ^ K < Z.pos A * 2 ^ (ez + K) ≤ 5000 * 2 ^ K) as [HVlo HVhi].
  { assert (0 < 2 ^ (ey + K)) by (apply Z.pow_pos_nonneg; lia). lia. }
  pose proof (Z.log2_nonneg (Z.pos A)) as Hl0.
  pose proof (Z.log2_spec (Z.pos A) ltac:(lia)) as [HAlo HAhi].
  set (lA := Z.log2 (Z.pos A)) in *.
  assert (10 ≤ lA + ez ≤ 12) as [Hd1 Hd2].
  { split.
    - assert (2 ^ (10 + K) < 2 ^ (Z.succ lA + (ez + K))) as Hlt.
      { rewrite (Z.pow_add_r 2 (Z.succ lA)), (Z.pow_add_r 2 10) by lia.
        assert (2 ^ 10 ≤ 2000) by done. nia. }
      apply Z.pow_lt_mono_r_iff in Hlt; lia.
    - assert (2 ^ (lA + (ez + K)) < 2 ^ (13 + K)) as Hlt.
      { rewrite (Z.pow_add_r 2 lA), (Z.pow_add_r 2 13) by lia.
        assert (5000 < 2 ^ 13) by done. nia. }
      apply Z.pow_lt_mono_r_iff in Hlt; lia. }
  cbn [binary_normalize]. unfold binary_round.
  rewrite digits2_pos_log2. fold lA.
  assert (fexp 53 1024 (lA + 1 + ez) = Z.max (lA + 1 + ez - 53) (-1074)) as ->
    by (unfold fexp, emin; f_equal; lia).
  pose proof (binary_round_aux_between A ez) as Hround. fold lA in Hround.
  set (e' := Z.max (lA + 1 + ez - 53) (-1074)) in *.
  assert (ez ≤ e' ∧ -42 ≤ e' ≤ -40) as (Hze & He1 & He2) by lia.
  rewrite shl_align_ge by done.
  assert (0 < 2 ^ (- e')) as Hpe by (apply Z.pow_pos_nonneg; lia).
  assert (0 < 2 ^ (e' + K)) as Hpe' by (apply Z.pow_pos_nonneg; lia).
  assert (0 < 2 ^ (e' - ez)) as Hpn by (apply Z.pow_pos_nonneg; lia).
  assert (∀ c, c * 2 ^ (- e') * 2 ^ (e' - ez) * 2 ^ (ez + K) = c * 2 ^ K)
    as Hscale.
  { intros c. rewrite <- !Z.mul_assoc, <- !Z.pow_add_r by lia.
    do 2 f_equal. lia. }
  assert (∀ c, c * 2 ^ (- e') * 2 ^ (e' + K) = c * 2 ^ K) as Hscale'.
  { intros c. rewrite <- !Z.mul_assoc, <- !Z.pow_add_r by lia.
    do 2 f_equal. lia. }
  destruct (Hround (2000 * 2 ^ (- e')) (5000 * 2 ^ (- e')))
    as (m & e & Hres & _ & Hee & [Hlo Hhi] & Hlog); [done|lia|lia| |].
  { split; apply (Z.mul_le_mono_pos_r _ _ (2 ^ (ez + K))); try done;
      rewrite Hscale; lia. }
  exists m, e. split; [done|]. split; [apply Hlog; lia|]. split; [lia|].
  replace (e + K) with ((e - e') + (e' + K)) by lia.
  rewrite Z.pow_add_r, Z.mul_assoc by lia.
  rewrite <- (Hscale' 2000), <- (Hscale' 5000).
  split; apply Z.mul_le_mono_nonneg_r; lia.
Qed.

(** [2000 + r * 3000] in binary64, for a draw [r] of [Math.random()]. *)
Lemma delay_between (r : float) :
  (0 <=? r)%float = true → (r <? 1)%float = true →
  (2000 <=? 2000 + r * 3000)%float = true
  ∧ (2000 + r * 3000 <=? 5000)%float = true.
Proof.
  rewrite !leb_spec, ltb_spec, add_spec, mul_spec.
  rewrite Prim2SF_2000, Prim2SF_3000, Prim2SF_5000, Prim2SF_1.
  change (Prim2SF 0) with (S754_zero false).
  pose proof (Prim2SF_valid r) as Hvalid.
  destruct (Prim2SF r) as [s|s| |s m e]; try done.
  - destruct s; cbn; intros; discriminate.
  - destruct s; [done|]. intros _ Hlt.
    destruct (mul_3000 1074 m e ltac:(done) Hvalid Hlt)
      as (my & ey & Hmul & Hey & Hy).
    unfold SF64mul, SF64add, prec, emax. rewrite Hmul.
    destruct (add_2000 1074 my ey ltac:(done) Hey Hy)
      as (m' & e' & Hadd & Hlog & He' & Hlo & Hhi).
    rewrite Hadd. split.
    + apply (SFleb_normal 1074); try done; lia.
    + apply (SFleb_normal 1074); try done; lia.
Qed.

(** Just beyond [2^53] the sum is rounded, ties to even. *)
Lemma plus_rounds :
  plus (2 ^ 53) 1 = 2 ^ 53 ∧ plus (2 ^ 53 + 2) 1 = 2 ^ 53 + 4.
Proof. split; by vm_compute. Qed.

End Binary64.

(** ** The cart *)

Section CartFacts.
Import Cart.

Lemma findIndex_None key l :
  findIndex key l = None ↔ key ∉ (id <$> l).
Proof.
  unfold findIndex. rewrite fmap_None, list_find_None, list_elem_of_fmap.
  rewrite Forall_forall. split.
  - intros H (item & Heq & Hin). by apply (H item).
  - intros H item Hin Heq. apply H. exists item. by split.
Qed.

Lemma findIndex_Some key l i :
  findIndex key l = Some i → ∃ item, l !! i = Some item ∧ id item = key.
Proof.
  unfold findIndex. intros H. apply fmap_Some in H as ([j item] & Hfind & ->).
  apply list_find_Some in Hfind as (Hl & Hid & _). eauto.
Qed.

(** With distinct identifiers, updating the slot that holds [key] is the same
    as updating every entry whose identifier is [key]. *)
Lemma alter_by_key (f : CartItem → CartItem) key (l : list CartItem) (i : nat)
    item :
  (∀ x, id (f x) = id x) →
  NoDup (id <$> l) → l !! i = Some item → id item = key →
  alter f i l = (λ old, if decide (id old = key) then f old else old) <$> l.
Proof.
  intros Hf. revert i. induction l as [|x l IH]; intros i Hnd Hi Hkey; [done|].
  rewrite fmap_cons in Hnd. apply NoDup_cons in Hnd as [Hx Hnd].
  destruct i as [|i]; simpl in *.
  - injection Hi as ->. rewrite decide_True by done. f_equal.
    symmetry. rewrite <- (list_fmap_id l) at 2. apply list_fmap_ext.
    intros j y Hy. rewrite decide_False; [done|].
    intros Heq. apply Hx. rewrite Hkey, <- Heq.
    apply list_elem_of_fmap. exists y. split; [done|].
    by apply list_elem_of_lookup_2 in Hy.
  - rewrite decide_False.
    + f_equal. by apply IH.
    + intros Heq. apply Hx. rewrite Heq, <- Hkey.
      apply list_elem_of_fmap. exists item. split; [done|].
      by apply list_elem_of_lookup_2 in Hi.
Qed.

Lemma ids_alter (f : CartItem → CartItem) (i : nat) (l : list CartItem) :
  (∀ x, id (f x) = id x) → id <$> alter f i l = id <$> l.
Proof.
  intros Hf. revert i. induction l as [|x l IH]; intros [|i]; simpl; [done..| |].
  - by rewrite Hf.
  - f_equal. apply IH.
Qed.

Lemma NoDup_ids_filter (P : CartItem → Prop) `{∀ x, Decision (P x)}
    (l : list CartItem) :
  NoDup (id <$> l) → NoDup (id <$> filter P l).
Proof.
  induction l as [|x l IH]; [done|].
  rewrite fmap_cons, NoDup_cons, filter_cons. intros [Hx Hnd].
  destruct (decide (P x)); [|by apply IH].
  rewrite fmap_cons. apply NoDup_cons. split; [|by apply IH].
  intros Hin. apply Hx.
  apply list_elem_of_fmap in Hin as (y & Heq & Hy).
  apply list_elem_of_filter in Hy as [_ Hy].
  apply list_elem_of_fmap. eauto.
Qed.

Lemma wellFormed_or_1 l item :
  wellFormed l → item ∈ l → Some (Js.or_1 (quantity item)) = quantity item.
Proof.
  intros [_ Hq] Hin. rewrite Forall_forall in Hq.
  destruct (Hq _ Hin) as (q & -> & Hpos). destruct q; simpl; [lia|done|lia].
Qed.

(** The exact sum of the quantities, entry by entry. *)
Lemma exactTotal_from (l : list CartItem) acc :
  fold_left (λ sum item, sum + Js.or_1 (quantity item)) l acc
  = acc + exactTotal l.
Proof.
  unfold exactTotal. revert acc.
  induction l as [|x l IH]; intros acc; simpl; [lia|].
  rewrite (IH (acc + _)), (IH (0 + _)). lia.
Qed.

Lemma exactTotal_cons (x : CartItem) (l : list CartItem) :
  exactTotal (x :: l) = Js.or_1 (quantity x) + exactTotal l.
Proof. unfold exactTotal at 1. simpl. rewrite exactTotal_from. lia. Qed.

Lemma exactTotal_snoc (l : list CartItem) x :
  exactTotal (l ++ [x]) = exactTotal l + Js.or_1 (quantity x).
Proof. unfold exactTotal. by rewrite fold_left_app. Qed.

Lemma exactTotal_alter (f : CartItem → CartItem) (l : list CartItem) (i : nat)
    old :
  l !! i = Some old →
  exactTotal (alter f i l)
  = exactTotal l - Js.or_1 (quantity old) + Js.or_1 (quantity (f old)).
Proof.
  revert i. induction l as [|x l IH]; intros [|i] Hi; try done.
  - injection Hi as ->. cbn [alter list_alter]. rewrite !exactTotal_cons. lia.
  - cbn [alter list_alter]. rewrite !exactTotal_cons, (IH i) by done. lia.
Qed.

Lemma positive_or_1 (item : CartItem) :
  (∃ q, quantity item = Some q ∧ 1 ≤ q) → 1 ≤ Js.or_1 (quantity item).
Proof. intros (q & -> & Hq). destruct q; simpl; lia. Qed.

Lemma exactTotal_nonneg (l : list CartItem) :
  Forall (λ item, ∃ q, quantity item = Some q ∧ 1 ≤ q) l → 0 ≤ exactTotal l.
Proof.
  induction 1 as [|x l Hx _ IH]; [done|].
  rewrite exactTotal_cons. apply positive_or_1 in Hx. lia.
Qed.

Lemma exactTotal_elem (l : list CartItem) item :
  Forall (λ item, ∃ q, quantity item = Some q ∧ 1 ≤ q) l → item ∈ l →
  Js.or_1 (quantity item) ≤ exactTotal l.
Proof.
  induction 1 as [|x l Hx Hl IH]; [by intros ?%elem_of_nil|].
  rewrite exactTotal_cons. intros [->|Hin]%elem_of_cons.
  - apply exactTotal_nonneg in Hl. lia.
  - apply positive_or_1 in Hx. specialize (IH Hin). lia.
Qed.

Lemma exactTotal_filter (P : CartItem → Prop) `{∀ x, Decision (P x)}
    (l : list CartItem) :
  Forall (λ item, ∃ q, quantity item = Some q ∧ 1 ≤ q) l →
  exactTotal (filter P l) ≤ exactTotal l.
Proof.
  induction 1 as [|x l Hx _ IH]; [done|].
  rewrite filter_cons, exactTotal_cons. apply positive_or_1 in Hx.
  destruct (decide (P x)); [rewrite exactTotal_cons|]; lia.
Qed.

Lemma update_absent key q (l : list CartItem) :
  key ∉ (id <$> l) →
  (λ item, if decide (id item = key)
           then with_quantity item (Some (Z.max 1 q)) else item) <$> l = l.
Proof.
  intros Hnot. rewrite <- (list_fmap_id l) at 2. apply list_fmap_ext.
  intros j y Hy. simpl. rewrite decide_False; [done|].
  intros Heq. apply Hnot. rewrite <- Heq. apply list_elem_of_fmap.
  exists y. split; [done|]. by apply list_elem_of_lookup_2 in Hy.
Qed.

Lemma exactTotal_update key q (l : list CartItem) :
  NoDup (id <$> l) →
  Forall (λ item, ∃ q, quantity item = Some q ∧ 1 ≤ q) l → 1 ≤ q →
  exactTotal ((λ item, if decide (id item = key)
                       then with_quantity item (Some (Z.max 1 q))
                       else item) <$> l)
  ≤ exactTotal l + q.
Proof.
  intros Hnd Hall Hq. induction Hall as [|x l Hx _ IH]; [simpl; unfold exactTotal; simpl; lia|].
  rewrite fmap_cons in Hnd. apply NoDup_cons in Hnd as [Hnot Hnd].
  rewrite fmap_cons, !exactTotal_cons. apply positive_or_1 in Hx.
  destruct (decide (id x = key)) as [Heq|Hne].
  - rewrite update_absent by by rewrite <- Heq.
    simpl. rewrite Z.max_r by lia. destruct q; simpl; lia.
  - specialize (IH Hnd). lia.
Qed.

(** In the range where binary64 adds exactly, [totalItems] is the exact
    sum. *)
Lemma totalItems_exact (s : CartState) :
  Forall (λ item, ∃ q, quantity item = Some q ∧ 1 ≤ q) (items s) →
  exactTotal (items s) ≤ 2 ^ 53 →
  totalItems (cartStats s) = exactTotal (items s).
Proof.
  destruct s as [l ld er]. cbn [items cartStats totalItems].
  induction l as [|x l IH] using rev_ind; [done|].
  rewrite Forall_app, Forall_singleton. intros [Hl Hx].
  rewrite exactTotal_snoc, fold_left_app. cbn [fold_left]. intros Hsum.
  apply positive_or_1 in Hx. pose proof (exactTotal_nonneg l Hl) as Hpos.
  rewrite IH by (done || lia). apply plus_exact; lia.
Qed.

Lemma NoDup_applyOp s op :
  NoDup (id <$> items s) → NoDup (id <$> items (applyOp s op)).
Proof.
  intros Hnd.
  destruct op as [item now|key|key q|]; cbn [applyOp];
    unfold addItem, updateItemQuantity, removeItem, clearCart; simpl.
  - destruct (findIndex (id item) (items s)) as [i|] eqn:Hfind; simpl.
    + by rewrite ids_alter.
    + apply findIndex_None in Hfind.
      rewrite fmap_app. apply NoDup_app. split; [done|]. split.
      * intros x Hx Hin. apply list_elem_of_singleton in Hin. by subst.
      * apply NoDup_singleton.
  - by apply NoDup_ids_filter.
  - destruct (q <=? 0); simpl.
    + by apply NoDup_ids_filter.
    + rewrite <- list_fmap_compose.
      erewrite list_fmap_ext; [exact Hnd|].
      intros i x _. simpl. by destruct (decide (id x = key)).
  - apply NoDup_nil_2.
Qed.

Lemma NoDup_runOps ops : NoDup (id <$> items (runOps ops)).
Proof.
  unfold runOps.
  assert (NoDup (id <$> items initialState)) as Hinit by apply NoDup_nil_2.
  revert Hinit. generalize initialState.
  induction ops as [|op ops IH]; intros s Hs; [done|].
  simpl. apply IH. by apply NoDup_applyOp.
Qed.

(** Adding to an entry below [2^53] stores the quantity plus one. *)
Lemma ADD_ITEM_increments (l : list CartItem) (old : CartItem) :
  Forall (λ item, ∃ q, quantity item = Some q ∧ 1 ≤ q) l →
  exactTotal l < 2 ^ 53 → old ∈ l →
  Some (Js.plus (Js.or_1 (quantity old)) 1) = Z.succ <$> quantity old.
Proof.
  intros Hall Hsum Hin. pose proof (exactTotal_elem l old Hall Hin) as Hle.
  rewrite Forall_forall in Hall. destruct (Hall _ Hin) as (q & Hq & Hpos).
  assert (Js.or_1 (Some q) = q) as Hor by (destruct q; simpl; lia).
  rewrite Hq, Hor in *. change (Z.succ <$> Some q) with (Some (Z.succ q)).
  f_equal. rewrite plus_exact by lia. lia.
Qed.

Lemma wellFormed_ADD_ITEM s payload :
  wellFormed (items s) → exactTotal (items s) < 2 ^ 53 →
  (∃ q, quantity payload = Some q ∧ 1 ≤ q) →
  wellFormed (items (cartReducer s (ADD_ITEM payload))).
Proof.
  intros [Hnd Hq] Hsum Hp. simpl.
  destruct (findIndex (id payload) (items s)) as [i|] eqn:Hfind; simpl.
  - split.
    + by rewrite ids_alter.
    + apply Forall_alter; [done|]. intros x Hx (q & Hqx & Hpos).
      apply list_elem_of_lookup_2 in Hx.
      exists (q + 1). simpl. split; [|lia].
      rewrite (ADD_ITEM_increments (items s) x) by done. by rewrite Hqx.
  - apply findIndex_None in Hfind. split.
    + rewrite fmap_app. apply NoDup_app. split; [done|]. split.
      * intros x Hx Hin. apply list_elem_of_singleton in Hin. by subst.
      * apply NoDup_singleton.
    + apply Forall_app. split; [done|]. by apply Forall_singleton.
Qed.

Lemma wellFormed_REMOVE_ITEM s key :
  wellFormed (items s) → wellFormed (items (cartReducer s (REMOVE_ITEM key))).
Proof.
  intros [Hnd Hq]. split; simpl.
  - by apply NoDup_ids_filter.
  - rewrite Forall_forall in Hq. apply Forall_forall. intros x Hx.
    apply list_elem_of_filter in Hx as [_ Hx]. by apply Hq.
Qed.

Lemma wellFormed_UPDATE_QUANTITY s key q :
  wellFormed (items s) →
  wellFormed (items (cartReducer s (UPDATE_QUANTITY key q))).
Proof.
  intros [Hnd Hq]. split; simpl.
  - rewrite <- list_fmap_compose.
    erewrite list_fmap_ext; [exact Hnd|].
    intros i x _. simpl. by destruct (decide (id x = key)).
  - apply Forall_fmap. eapply Forall_impl; [exact Hq|].
    intros x (qx & Hx & Hpos). simpl.
    destruct (decide (id x = key)); simpl; eauto.
    exists (Z.max 1 q). split; [done|lia].
Qed.

(** The exact sum after [addItem], in range. *)
Lemma exactTotal_addItem s item now :
  wellFormed (items s) → exactTotal (items s) < 2 ^ 53 →
  exactTotal (items (addItem item now s)) = exactTotal (items s) + 1.
Proof.
  intros [Hnd Hq] Hsum. unfold addItem. simpl.
  destruct (findIndex (id _) (items s)) as [i|] eqn:Hfind; simpl.
  - apply findIndex_Some in Hfind as (old & Hi & _).
    pose proof (list_elem_of_lookup_2 _ _ _ Hi) as Hin.
    rewrite (exactTotal_alter _ _ _ old) by done. cbn [quantity with_quantity].
    rewrite (ADD_ITEM_increments (items s) old Hq Hsum Hin).
    rewrite Forall_forall in Hq. destruct (Hq _ Hin) as (q & -> & Hpos).
    simpl. destruct q; simpl; lia.
  - rewrite exactTotal_snoc. simpl. lia.
Qed.

Lemma opsWeight_nonneg ops : 0 ≤ opsWeight ops.
Proof.
  induction ops as [|op ops IH]; simpl; [done|].
  destruct op; simpl; lia.
Qed.

(** As long as the calls cannot bring the sum of the quantities to [2^53],
    the cart stays well formed and its exact sum within what they add. *)
Lemma inRange_applyOp s op W :
  wellFormed (items s) → exactTotal (items s) ≤ W →
  W + opWeight op < 2 ^ 53 →
  wellFormed (items (applyOp s op))
  ∧ exactTotal (items (applyOp s op)) ≤ W + opWeight op.
Proof.
  intros Hwf HW Hrange.
  pose proof (exactTotal_nonneg _ (proj2 Hwf)) as Hpos.
  destruct op as [item now|key|key q|]; cbn [applyOp opWeight] in *.
  - split.
    + apply wellFormed_ADD_ITEM; [done|lia|]. exists 1. by split.
    + rewrite exactTotal_addItem by (done || lia). lia.
  - split; [by apply wellFormed_REMOVE_ITEM|].
    pose proof (exactTotal_filter (λ item, id item ≠ key) _ (proj2 Hwf)).
    unfold removeItem. simpl. lia.
  - unfold updateItemQuantity, removeItem.
    destruct (Z.leb_spec q 0) as [Hq|Hq].
    + split; [by apply wellFormed_REMOVE_ITEM|].
      pose proof (exactTotal_filter (λ item, id item ≠ key) _ (proj2 Hwf)).
      simpl. lia.
    + split; [by apply wellFormed_UPDATE_QUANTITY|].
      pose proof (exactTotal_update key q _ (proj1 Hwf) (proj2 Hwf)
                    ltac:(lia)).
      simpl. lia.
  - split; [split; [apply NoDup_nil_2|apply Forall_nil_2]|].
    unfold clearCart, exactTotal. simpl. lia.
Qed.

Lemma inRange_fold ops s W :
  wellFormed (items s) → exactTotal (items s) ≤ W →
  W + opsWeight ops < 2 ^ 53 →
  wellFormed (items (fold_left applyOp ops s))
  ∧ exactTotal (items (fold_left applyOp ops s)) ≤ W + opsWeight ops.
Proof.
  revert s W. induction ops as [|op ops IH]; intros s W Hwf HW Hrange.
  - simpl in *. split; [done|lia].
  - cbn [opsWeight fold_right] in *. fold (opsWeight ops) in *.
    pose proof (opsWeight_nonneg ops) as Hops.
    destruct (inRange_applyOp s op W) as [Hwf' HW']; [done|done|lia|].
    destruct (IH (applyOp s op) (W + opWeight op)) as [Hwf'' HW''];
      [done|done|lia|].
    simpl. split; [done|lia].
Qed.

Lemma inRange_runOps ops :
  opsWeight ops < 2 ^ 53 →
  wellFormed (items (runOps ops)) ∧ exactTotal (items (runOps ops)) < 2 ^ 53.
Proof.
  intros Hrange.
  destruct (inRange_fold ops initialState 0) as [Hwf HW].
  - split; [apply NoDup_nil_2|apply Forall_nil_2].
  - done.
  - lia.
  - split; [done|]. unfold runOps. lia.
Qed.

(** The exact sum over stored quantities of at least 1. *)
Lemma exactTotal_sumQuantities (l : list CartItem) :
  Forall (λ item, ∃ q, quantity item = Some q ∧ 1 ≤ q) l →
  ∃ qs, quantity <$> l = Some <$> qs ∧ exactTotal l = sumQuantities qs.
Proof.
  induction 1 as [|x l (q & Hx & Hpos) _ (qs & Hqs & Hsum)].
  - by exists [].
  - exists (q :: qs). split.
    + rewrite !fmap_cons. by rewrite Hx, Hqs.
    + rewrite exactTotal_cons, Hsum, Hx. destruct q; simpl; lia.
Qed.

(** C1.  After any sequence of [addItem], [removeItem], [updateItemQuantity]
    and [clearCart] calls from the initial (empty) cart, no two entries share
    an identifier.  As long as the calls add less than [2^53] to the
    quantities in all (one for each [addItem], the new quantity for each
    [updateItemQuantity]), binary64 counts exactly: adding an item whose
    identifier is present leaves the list as it is except that the quantity
    of the entry with that identifier is incremented by one, and
    [totalItems] is the sum of the stored quantities of all entries. *)
Theorem cart_one_entry_per_id (ops : list CartOp) :
  let s := runOps ops in
  NoDup (id <$> items s)
  ∧ (opsWeight ops < 2 ^ 53 →
     (∀ item now,
        id item ∈ (id <$> items s) →
        items (addItem item now s)
        = (λ old, if decide (id old = id item)
                  then with_quantity old (Z.succ <$> quantity old)
                  else old) <$> items s)
     ∧ (∃ qs, quantity <$> items s = Some <$> qs ∧
              totalItems (cartStats s) = sumQuantities qs)).
Proof.
  intros s. split; [apply NoDup_runOps|]. intros Hrange.
  destruct (inRange_runOps ops Hrange) as [Hwf Hsum]. fold s in Hwf, Hsum.
  split.
  - intros item now Hin. unfold addItem. simpl.
    destruct (findIndex (id item) (items s)) as [i|] eqn:Hfind.
    + apply findIndex_Some in Hfind as (old & Hi & Hid). simpl.
      rewrite (alter_by_key _ (id item) _ i old); [|done|apply Hwf|done..].
      apply list_fmap_ext. intros j x Hx.
      destruct (decide (id x = id item)); [|done].
      f_equal. apply list_elem_of_lookup_2 in Hx.
      by apply (ADD_ITEM_increments (items s)); [apply Hwf|..].
    + apply findIndex_None in Hfind. done.
  - destruct (exactTotal_sumQuantities (items s) (proj2 Hwf))
      as (qs & Hqs & Hexact).
    exists qs. split; [done|].
    rewrite totalItems_exact; [done|apply Hwf|lia].
Qed.

Lemma cart_one_entry_per_id_witness :
  items (addItem exampleItem 9 (runOps [OpAdd exampleItem 5]))
  = [with_quantity (with_addedAt exampleItem 5) (Some 2)].
Proof.
  rewrite (proj1 (proj2 (cart_one_entry_per_id [OpAdd exampleItem 5])
                    ltac:(by vm_compute))
             exampleItem 9).
  - reflexivity.
  - apply list_elem_of_here.
Defined.

(** C1 as the spec words it, for every sequence of operations, fails where
    binary64 stops counting by ones: after [updateItemQuantity] has set a
    quantity to [2^53], [addItem] for that identifier leaves the quantity at
    [2^53], and with a second entry of quantity 1 [totalItems] is [2^53],
    one less than the sum of the quantities. *)
Lemma cart_quantity_rounds :
  quantity <$> items (runOps bulkOrder) = [Some (2 ^ 53)]
  ∧ quantity <$> items (addItem exampleItem 9 (runOps bulkOrder))
    = [Some (2 ^ 53)]
  ∧ quantity <$> items (addItem otherItem 9 (runOps bulkOrder))
    = [Some (2 ^ 53); Some 1]
  ∧ totalItems (cartStats (addItem otherItem 9 (runOps bulkOrder))) = 2 ^ 53.
Proof. repeat split; by vm_compute. Qed.

(** C5.  [updateItemQuantity id qty] with [qty <= 0] gives the cart that
    [removeItem id] gives; with [qty >= 1] it keeps the entries and their
    identifiers and stores [max 1 qty], which is at least 1, as the quantity
    of every entry whose identifier is [id]. *)
Theorem updateItemQuantity_spec (s : CartState) (key : string) (q : Z) :
  (q ≤ 0 → updateItemQuantity key q s = removeItem key s)
  ∧ (1 ≤ q →
     items (updateItemQuantity key q s)
     = (λ item, if decide (id item = key)
                then with_quantity item (Some (Z.max 1 q))
                else item) <$> items s
     ∧ id <$> items (updateItemQuantity key q s) = id <$> items s
     ∧ 1 ≤ Z.max 1 q
     ∧ ∀ item, item ∈ items (updateItemQuantity key q s) → id item = key →
               quantity item = Some (Z.max 1 q)).
Proof.
  unfold updateItemQuantity. split; intros Hq.
  - by rewrite (proj2 (Z.leb_le q 0) Hq).
  - rewrite (proj2 (Z.leb_gt q 0)) by lia. simpl.
    split; [done|]. split; [|split; [lia|]].
    + rewrite <- list_fmap_compose. apply list_fmap_ext.
      intros i x _. simpl. by destruct (decide (id x = key)).
    + intros item Hin Hid.
      apply list_elem_of_fmap in Hin as (old & -> & _).
      destruct (decide (id old = key)); [done|]. by destruct n.
Qed.

Lemma updateItemQuantity_spec_witness :
  updateItemQuantity "note-1" 0 exampleCart = removeItem "note-1" exampleCart
  ∧ ∀ item, item ∈ items (updateItemQuantity "note-1" 3 exampleCart) →
            id item = "note-1" → quantity item = Some (Z.max 1 3).
Proof.
  split.
  - apply (proj1 (updateItemQuantity_spec exampleCart "note-1" 0)). lia.
  - apply (proj2 (updateItemQuantity_spec exampleCart "note-1" 3)). lia.
Defined.

(** C10.  [updateItemQuantity id qty] with [qty >= 1]: when no entry has the
    identifier the item list is unchanged; in any case the list keeps its
    length, an entry with another identifier is unchanged, and the entry
    with the identifier keeps every field other than its quantity. *)
Theorem updateItemQuantity_frame (s : CartState) (key : string) (q : Z) :
  1 ≤ q →
  (key ∉ (id <$> items s) → items (updateItemQuantity key q s) = items s)
  ∧ length (items (updateItemQuantity key q s)) = length (items s)
  ∧ ∀ (i : nat) item, items s !! i = Some item →
      ∃ item', items (updateItemQuantity key q s) !! i = Some item'
        ∧ (id item ≠ key → item' = item)
        ∧ id item' = id item ∧ title item' = title item
        ∧ price item' = price item ∧ thumbnail item' = thumbnail item
        ∧ seller item' = seller item ∧ subject item' = subject item
        ∧ addedAt item' = addedAt item.
Proof.
  intros Hq. unfold updateItemQuantity.
  rewrite (proj2 (Z.leb_gt q 0)) by lia. simpl. split; [|split].
  - intros Hnot. rewrite <- (list_fmap_id (items s)) at 2.
    apply list_fmap_ext. intros i x Hx.
    destruct (decide (id x = key)) as [Heq|]; [|done].
    destruct Hnot. rewrite <- Heq. apply list_elem_of_fmap.
    exists x. split; [done|]. by apply list_elem_of_lookup_2 in Hx.
  - by rewrite length_fmap.
  - intros i item Hi. rewrite list_lookup_fmap, Hi. simpl.
    eexists. split; [done|].
    destruct (decide (id item = key)); simpl; by repeat split.
Qed.

Lemma updateItemQuantity_frame_witness :
  length (items (updateItemQuantity "note-1" 2 exampleCart))
  = length (items exampleCart).
Proof.
  apply (updateItemQuantity_frame exampleCart "note-1" 2). lia.
Defined.

Lemma totalPrice_snoc l ld er item ld' er' :
  totalPrice (cartStats (mkCartState (l ++ [item]) ld er))
  = (totalPrice (cartStats (mkCartState l ld' er')) + linePrice item)%float.
Proof. simpl. by rewrite fold_left_app. Qed.

Lemma totalPrice_sumLines s :
  totalPrice (cartStats s) = sumLines (rev (items s)).
Proof.
  destruct s as [l ld er]. simpl items.
  induction l as [|item l IH] using rev_ind; [done|].
  rewrite (totalPrice_snoc l ld er item ld er), IH.
  by rewrite rev_app_distr.
Qed.

(** C4 as the code has it.  The subtotal is the sum of the line totals
    [price * quantity], added up left to right in binary64; the tax is the
    subtotal times 0.1 and the grand total the subtotal times 1.1.  A cart
    with one entry priced 15.99 and quantity 1 has subtotal 15.99, tax
    1.5990000000000002 and total 17.589000000000002. *)
Theorem cart_totals (s : CartState) :
  let summary := cartSummary (totalPrice (cartStats s)) in
  subtotal summary = sumLines (rev (items s))
  ∧ tax summary = (subtotal summary * 0.1)%float
  ∧ total summary = (subtotal summary * 1.1)%float
  ∧ ∀ key name thumb who subj added ld er,
      let one := mkCartState
                   [mkCartItem key name 15.99%float thumb who subj added (Some 1)]
                   ld er in
      cartSummary (totalPrice (cartStats one))
      = mkSummary 15.99%float 1.5990000000000002%float 17.589000000000002%float.
Proof.
  intros summary. split; [apply totalPrice_sumLines|].
  split; [done|]. split; [done|]. intros. reflexivity.
Qed.

(** C4 as the spec words it fails in the last digit: for the cart with one
    entry priced 15.99 the tax is not 1.599 and the total is not 17.589. *)
Lemma cart_totals_not_decimal :
  let summary := cartSummary (totalPrice (cartStats exampleCart)) in
  subtotal summary = 15.99%float
  ∧ tax summary ≠ 1.599%float
  ∧ total summary ≠ 17.589%float.
Proof.
  split; [reflexivity|]. split; intros H.
  - apply (f_equal (λ x, PrimFloat.eqb x 1.599%float)) in H.
    vm_compute in H. discriminate H.
  - apply (f_equal (λ x, PrimFloat.eqb x 17.589%float)) in H.
    vm_compute in H. discriminate H.
Qed.

(** C7.  When the persisted cart value is corrupted (text that is not JSON,
    or JSON that is not an array), initialisation returns normally with an
    empty item list, loading finished and no error. *)
Theorem initializeCart_corrupted (now : Z) (store : Json.Storage)
    (saved : Json.doc) :
  Json.entries store !! LOCAL_STORAGE_KEYS_CART = Some saved →
  corrupted saved →
  initializeCart now store = Json.Read (mkCartState [] false None).
Proof.
  intros Hsaved Hbad. unfold initializeCart. rewrite Hsaved.
  destruct saved as [text|v].
  - simpl. by destruct (Js.truthy_string text).
  - simpl. by destruct v.
Qed.

Lemma initializeCart_corrupted_witness :
  initializeCart 0 corruptStore = Json.Read (mkCartState [] false None).
Proof.
  apply (initializeCart_corrupted 0 corruptStore
           (Json.Doc (Json.JObj [("id", Json.JStr "note-1")]))).
  - reflexivity.
  - exact I.
Defined.

End CartFacts.

(** ** Authentication *)

Section AuthFacts.
Import Json Auth.

Variable isValidEmail : string → bool.

(** C6.  [login] with an email that fails the format validation throws the
    INVALID_EMAIL error; no event is added, so the API delay is not started,
    the storage is untouched, and the error is recorded in the state. *)
Theorem login_invalid_email (email password : string) (env : Env) (w : World) :
  isValidEmail email = false →
  let r := login isValidEmail email password env w in
  let failure := mkAuthError INVALID_EMAIL "Invalid email or password" in
  fst r = Thrown (ExnAuth failure)
  ∧ events (snd r) = events w
  ∧ (ApiDelay 1000 ∉ drop (length (events w)) (events (snd r)))
  ∧ storage (snd r) = storage w
  ∧ state (snd r) = mkAuthState (user (state w)) false (Some failure).
Proof.
  intros Hbad. unfold login, tryCatch, mbind, M_bind, dispatch. simpl.
  rewrite Hbad. simpl. repeat split; try done.
  rewrite drop_all. apply not_elem_of_nil.
Qed.

Lemma roleOfName_roleName r : roleOfName (roleName r) = Some r.
Proof. by destruct r. Qed.

Lemma truthy_string_nonempty s : s ≠ "" → Js.truthy_string s = true.
Proof. by destruct s. Qed.

(** What [saveUserData] writes, [parseUserData] reads back. *)
Lemma parseUserData_userJson (u : User) (now : Z) :
  id u ≠ "" → email u ≠ "" → name u ≠ "" →
  parseUserData (Doc (userJson u)) now = Read (Some u).
Proof.
  intros Hid Hemail Hname. destruct u as [i e n r a c l]. simpl in *.
  unfold parseUserData, readUser, userJson. simpl.
  rewrite !truthy_string_nonempty by done.
  assert (Js.truthy_string (roleName r) = true) as -> by by destruct r.
  simpl. rewrite roleOfName_roleName.
  destruct a, l; reflexivity.
Qed.

(** X13.  A user that [register] creates has the role passed in, buyer when
    none is passed, whatever the email. *)
Lemma register_role_is_argument email password name roleArg env w :
  let r := register isValidEmail email password name roleArg env w in
  fst r = Ok tt →
  role <$> user (state (snd r)) = Some (default BUYER roleArg).
Proof.
  unfold register, saveUserData, tryCatch, mbind, M_bind, dispatch,
    simulateApiDelay, emit, setItem, rethrow, throw. simpl.
  destruct (isValidEmail email); simpl; [|done].
  destruct (validatePassword password); simpl; [|done].
  destruct (Js.truthy_string (Js.trim name)); simpl; [|done].
  destruct (writable (storage w)); simpl; done.
Qed.

(** C2 as the code has it.  [register] of seller@x.com, password1, Jo
    without a role argument succeeds when the email passes the format
    validation, the generated identifier is not empty and the storage takes
    the write: the user has the default role buyer, is persisted, and a
    later initialisation from the storage restores that user. *)
Theorem register_default_role (env : Env) (w : World) :
  isValidEmail "seller@x.com" = true →
  generatedId env ≠ "" →
  writable (storage w) = true →
  let r := register isValidEmail "seller@x.com" "password1" "Jo" None env w in
  let u := mkUser (generatedId env) "seller@x.com" "Jo" BUYER
             (Some "https://api.dicebear.com/7.x/avataaars/svg?seed=seller%40x.com")
             (createdNow env) (Some (loginNow env)) in
  fst r = Ok tt
  ∧ state (snd r) = mkAuthState (Some u) false None
  ∧ events (snd r) = events w ++ [ApiDelay 1000]
  ∧ entries (storage (snd r)) !! LOCAL_STORAGE_KEYS_USER = Some (Doc (userJson u))
  ∧ ∀ now, ∃ w', initializeAuth now (storage (snd r)) = Read w'
                 ∧ state w' = mkAuthState (Some u) false None.
Proof.
  intros Hvalid Hid Hwrite r u.
  assert (r = (Ok tt, mkWorld (mkAuthState (Some u) false None)
                        (mkStorage (<[LOCAL_STORAGE_KEYS_USER := Doc (userJson u)]>
                                      (entries (storage w))) true)
                        (events w ++ [ApiDelay 1000]))) as Hr.
  { subst r. unfold register, saveUserData, tryCatch, mbind, M_bind, dispatch,
      simulateApiDelay, emit, setItem. simpl.
    rewrite Hvalid. simpl. rewrite Hwrite. reflexivity. }
  rewrite Hr. simpl. repeat split.
  - apply lookup_insert_eq.
  - intros now. unfold initializeAuth. cbn [entries].
    rewrite lookup_insert_eq. cbn [truthy_text].
    rewrite (parseUserData_userJson u now) by done.
    eexists. split; reflexivity.
Qed.

End AuthFacts.

Lemma login_invalid_email_witness :
  fst (Auth.login Auth.sampleIsValidEmail "not-an-email" "pw" Auth.sampleEnv
                  Auth.freshWorld)
  = Auth.Thrown (Auth.ExnAuth (Auth.mkAuthError Auth.INVALID_EMAIL
                                                "Invalid email or password")).
Proof.
  apply (proj1 (login_invalid_email Auth.sampleIsValidEmail "not-an-email" "pw"
                  Auth.sampleEnv Auth.freshWorld eq_refl)).
Defined.

Lemma register_default_role_witness :
  fst (Auth.register Auth.sampleIsValidEmail "seller@x.com" "password1" "Jo"
                     None Auth.sampleEnv Auth.freshWorld) = Auth.Ok tt.
Proof.
  apply (proj1 (register_default_role Auth.sampleIsValidEmail Auth.sampleEnv
                  Auth.freshWorld eq_refl ltac:(discriminate) eq_refl)).
Defined.

(** C2 as the spec words it fails: the user that [register] produces for
    seller@x.com without a role argument has the role buyer, not seller,
    although the email contains the word that [determineUserRole] looks for. *)
Lemma register_role_not_seller :
  let r := Auth.register Auth.sampleIsValidEmail "seller@x.com" "password1" "Jo"
                         None Auth.sampleEnv Auth.freshWorld in
  fst r = Auth.Ok tt
  ∧ Auth.role <$> Auth.user (Auth.state (snd r)) = Some Auth.BUYER
  ∧ Auth.role <$> Auth.user (Auth.state (snd r)) ≠ Some Auth.SELLER
  ∧ Auth.determineUserRole "seller@x.com" = Auth.SELLER.
Proof. repeat split; try reflexivity. discriminate. Qed.

(** ** Payment and checkout *)

Section PaymentFacts.
Import Payment Checkout.

(** A draw in the unit interval picks one of the four failure reasons. *)
Lemma pickFailure_in (r : Q) :
  (0 <= r)%Q → (r < 1)%Q →
  ∃ reason, pickFailure r = Some reason ∧ reason ∈ failures.
Proof.
  intros Hlo Hhi. unfold pickFailure.
  set (index := Qfloor _).
  assert (0 ≤ index < 4) as Hindex.
  { subst index. destruct r as [n d]. unfold Qle, Qlt in Hlo, Hhi.
    simpl in *. split.
    - apply Z.div_pos; lia.
    - apply Z.div_lt_upper_bound; lia. }
  destruct (index <? 0) eqn:Hneg; [lia|].
  assert (index = 0 ∨ index = 1 ∨ index = 2 ∨ index = 3)
    as [-> | [-> | [-> | ->]]] by lia;
    simpl; eexists; (split; [reflexivity|]); unfold failures;
    repeat first [apply list_elem_of_here | apply list_elem_of_further].
Qed.

(** C9.  With the failure draw in the unit interval, as [Math.random]
    gives it, the response of [processPayment] has one of two shapes: a
    success with status COMPLETED and a transaction identifier, or a failure
    with status FAILED, no transaction identifier and one of the four fixed
    reasons as its error. *)
Theorem processPayment_result_shape (fmt : Js.Format) (draws : Draws)
    (request : PaymentRequest) :
  (0 <= pickDraw draws)%Q → (pickDraw draws < 1)%Q →
  let response := snd (processPayment fmt draws request) in
  let reasons := ["Insufficient funds"; "Payment method declined";
                  "Network timeout"; "Invalid payment details"] in
  (success response = true →
     status response = COMPLETED ∧ is_Some (Payment.transactionId response))
  ∧ (success response = false →
     status response = FAILED ∧ Payment.transactionId response = None
     ∧ ∃ reason, error response = Some reason ∧ reason ∈ reasons)
  ∧ ((∃ txn text,
        response = mkPaymentResponse true (Some txn) COMPLETED text None None)
     ∨ (∃ reason,
        response = mkPaymentResponse false None FAILED "Payment failed" None
                                     (Some reason)
        ∧ reason ∈ reasons)).
Proof.
  intros Hlo Hhi. simpl.
  destruct (pickFailure_in _ Hlo Hhi) as (reason & Hpick & Hin).
  destruct (negb _); simpl.
  - split; [by eauto|]. split; [done|]. left. eauto.
  - rewrite Hpick. split; [done|]. split; [by eauto|]. right. eauto.
Qed.

Lemma processPayment_result_shape_witness :
  let response := snd (processPayment sampleFormat sampleDraws emptyRequest) in
  status response = COMPLETED ∧ is_Some (Payment.transactionId response).
Proof.
  assert ((0 <= pickDraw sampleDraws)%Q) as Hlo by (vm_compute; discriminate).
  assert ((pickDraw sampleDraws < 1)%Q) as Hhi by reflexivity.
  apply (proj1 (processPayment_result_shape sampleFormat sampleDraws
                  emptyRequest Hlo Hhi) eq_refl).
Defined.

Lemma validate_no_items (request : PaymentRequest) :
  Payment.items request = [] →
  "No items to purchase" ∈ validatePaymentRequest request.
Proof.
  intros Hitems. unfold validatePaymentRequest. rewrite Hitems. simpl.
  do 3 (apply elem_of_app; right). apply list_elem_of_here.
Qed.

(** The request passes exactly when every check passes. *)
Lemma validate_passes (request : PaymentRequest) :
  validatePaymentRequest request = [] ↔
  Js.truthy_number (amount request) = true
  ∧ PrimFloat.leb (amount request) 0%float = false
  ∧ currency request ≠ ""
  ∧ Payment.items request ≠ []
  ∧ email (customerInfo request) ≠ ""
  ∧ name (customerInfo request) ≠ "".
Proof.
  unfold validatePaymentRequest.
  destruct request as [a c m l [e n]]. simpl.
  assert (Js.truthy_string (methodName m) = true) as -> by by destruct m.
  destruct (Js.truthy_number a), (PrimFloat.leb a 0%float), c, l, e, n;
    simpl; split; try done; intros (? & ? & ? & ? & ? & ?); done.
Qed.

(** C3 as the code has it.  [validatePaymentRequest] reports the missing
    items for a request without line items, and passes a request exactly
    when the amount is positive, the currency, customer email and customer
    name are not empty and there is a line item.  [handleCheckout] validates
    before it pays: with an empty cart, or with a request that fails the
    validation, it shows the errors and never reaches [processPayment].
    [processPayment] itself does not look at the line items or the
    customer. *)
Theorem validation_before_payment :
  (∀ request, Payment.items request = [] →
              "No items to purchase" ∈ validatePaymentRequest request)
  ∧ (∀ fmt draws total money via lines customer lines' customer',
       processPayment fmt draws
                      (mkPaymentRequest total money via lines customer)
       = processPayment fmt draws
                        (mkPaymentRequest total money via lines' customer'))
  ∧ (∀ request,
       validatePaymentRequest request = [] ↔
       Js.truthy_number (amount request) = true
       ∧ PrimFloat.leb (amount request) 0%float = false
       ∧ currency request ≠ ""
       ∧ Payment.items request ≠ []
       ∧ email (customerInfo request) ≠ ""
       ∧ name (customerInfo request) ≠ "")
  ∧ (∀ fmt draws now totalPrice customer method,
       handleCheckout fmt draws now [] totalPrice customer method
       = [Toast "Empty Cart" "Add items to your cart before checking out." true])
  ∧ (∀ fmt draws now cart totalPrice customer method,
       cart ≠ [] →
       let errors := validatePaymentRequest
                       (paymentRequestOf cart totalPrice customer method) in
       errors ≠ [] →
       handleCheckout fmt draws now cart totalPrice customer method
       = [SetIsProcessing true;
          Toast "Validation Error" (String.concat ", " errors) true;
          SetIsProcessing false])
  ∧ (∀ fmt draws now cart totalPrice customer method,
       existsb awaitsPayment
               (handleCheckout fmt draws now cart totalPrice customer method)
       = true →
       cart ≠ []
       ∧ validatePaymentRequest
           (paymentRequestOf cart totalPrice customer method) = []).
Proof.
  split; [exact validate_no_items|]. split; [done|].
  split; [exact validate_passes|]. split; [done|]. split.
  - intros fmt draws now cart totalPrice customer method Hcart errors Herr.
    unfold handleCheckout. destruct cart as [|item cart]; [done|].
    fold errors. destruct errors; [done|]. reflexivity.
  - intros fmt draws now cart totalPrice customer method.
    unfold handleCheckout. destruct cart as [|item cart]; [done|].
    destruct (validatePaymentRequest _) as [|e errors]; [done|].
    simpl. done.
Qed.

Lemma validation_before_payment_witness :
  "No items to purchase" ∈ validatePaymentRequest emptyRequest.
Proof.
  apply (proj1 validation_before_payment emptyRequest). reflexivity.
Defined.

End PaymentFacts.

(** C3 as the spec words it fails: [processPayment] does not validate.  For
    a request without line items, which [validatePaymentRequest] rejects, it
    waits its delay and draws an outcome, here a success. *)
Lemma processPayment_does_not_validate :
  let r := Payment.processPayment Payment.sampleFormat Payment.sampleDraws
                                  Payment.emptyRequest in
  Payment.items Payment.emptyRequest = []
  ∧ Payment.validatePaymentRequest Payment.emptyRequest = ["No items to purchase"]
  ∧ PrimFloat.leb 2000 (fst r) = true
  ∧ Payment.success (snd r) = true
  ∧ Payment.status (snd r) = Payment.COMPLETED.
Proof. repeat split; reflexivity. Qed.

(** ** The order history *)

Section OrdersFacts.
Import Json Orders.

Lemma assoc_setField key v fields : assoc key (setField key v fields) = Some v.
Proof.
  induction fields as [|[k old] rest IH]; simpl.
  - by rewrite String.eqb_refl.
  - destruct (String.eqb k key) eqn:Hk; simpl; by rewrite Hk.
Qed.

Lemma newOrder_completed data now :
  prop (newOrder data now) "status" = Some (JStr "completed").
Proof. apply assoc_setField. Qed.

Lemma recordOrder_prepends data now store olds :
  writable store = true →
  persistedOrders store = Some olds →
  ∃ store',
    recordOrder data now store
    = Finished (JArr (newOrder data now :: olds)) store'
    ∧ persistedOrders store' = Some (newOrder data now :: olds)
    ∧ writable store' = true.
Proof.
  intros Hwrite Hold. unfold recordOrder, loadOrders, persistedOrders in *.
  destruct (entries store !! ORDERS_KEY) as [[text|v]|] eqn:Hget.
  - destruct text; [|done]. injection Hold as <-. simpl. rewrite Hwrite.
    eexists. split; [done|]. simpl. by rewrite lookup_insert_eq.
  - destruct v; try done. injection Hold as <-. simpl. rewrite Hwrite.
    eexists. split; [done|]. simpl. by rewrite lookup_insert_eq.
  - injection Hold as <-. simpl. rewrite Hwrite.
    eexists. split; [done|]. simpl. by rewrite lookup_insert_eq.
Qed.

Lemma listOrders_persisted store olds :
  persistedOrders store = Some olds →
  listOrders store = Finished (JArr olds) store.
Proof.
  intros Hold. unfold listOrders, loadOrders, persistedOrders in *.
  destruct (entries store !! ORDERS_KEY) as [[text|v]|].
  - destruct text; [|done]. by injection Hold as <-.
  - destruct v; try done. by injection Hold as <-.
  - by injection Hold as <-.
Qed.

Lemma recordAll_history calls store olds :
  writable store = true →
  persistedOrders store = Some olds →
  ∃ store',
    recordAll calls store = Some store'
    ∧ persistedOrders store'
      = Some (rev ((λ call, newOrder call.1 call.2) <$> calls) ++ olds).
Proof.
  revert store olds. induction calls as [|[data now] rest IH];
    intros store olds Hwrite Hold.
  - exists store. by split.
  - destruct (recordOrder_prepends data now store olds Hwrite Hold)
      as (store1 & Hrun & Hold1 & Hwrite1).
    destruct (IH store1 _ Hwrite1 Hold1) as (store' & Hall & Hfinal).
    exists store'. simpl. rewrite Hrun. split; [done|].
    rewrite Hfinal. by rewrite <- app_assoc.
Qed.

(** C8.  The new order always has status completed.  [recordOrder] puts it
    in front of the persisted list and persists the result; [listOrders]
    returns the persisted list; and after any sequence of [recordOrder]
    calls the persisted list is the new orders, latest first, followed by
    the orders that were there before, unchanged and in their order. *)
Theorem orders_append_only :
  (∀ data now, prop (newOrder data now) "status" = Some (JStr "completed"))
  ∧ (∀ data now store olds,
       writable store = true → persistedOrders store = Some olds →
       ∃ store',
         recordOrder data now store
         = Finished (JArr (newOrder data now :: olds)) store'
         ∧ persistedOrders store' = Some (newOrder data now :: olds))
  ∧ (∀ store olds,
       persistedOrders store = Some olds →
       listOrders store = Finished (JArr olds) store)
  ∧ (∀ calls store olds,
       writable store = true → persistedOrders store = Some olds →
       ∃ store',
         recordAll calls store = Some store'
         ∧ persistedOrders store'
           = Some (rev ((λ call, newOrder call.1 call.2) <$> calls) ++ olds)).
Proof.
  split; [exact newOrder_completed|]. split.
  - intros data now store olds Hwrite Hold.
    destruct (recordOrder_prepends data now store olds Hwrite Hold)
      as (store' & Hrun & Hold' & _).
    eauto.
  - split; [exact listOrders_persisted|exact recordAll_history].
Qed.

Lemma orders_append_only_witness :
  ∃ store',
    recordAll [([("transactionId", JStr "txn_1")], 1700000000000);
               ([("transactionId", JStr "txn_2")], 1700000000500)]
              Auth.emptyStorage = Some store'
    ∧ persistedOrders store'
      = Some [newOrder [("transactionId", JStr "txn_2")] 1700000000500;
              newOrder [("transactionId", JStr "txn_1")] 1700000000000].
Proof.
  apply (proj2 (proj2 (proj2 orders_append_only))
           [([("transactionId", JStr "txn_1")], 1700000000000);
            ([("transactionId", JStr "txn_2")], 1700000000500)]
           Auth.emptyStorage []); reflexivity.
Defined.

End OrdersFacts.

(** * Further properties *)

(** ** Looking entries up in the cart *)

Section CartLookup.
Import Cart.

Local Abbreviation byKey key l :=
  (snd <$> list_find (λ item : CartItem, id item = key) l).

Lemma byKey_cons key (x : CartItem) (l : list CartItem) :
  byKey key (x :: l) = if decide (id x = key) then Some x else byKey key l.
Proof.
  simpl. destruct (decide (id x = key)); [done|].
  by destruct (list_find _ l) as [[j y]|].
Qed.

Lemma byKey_Some key (l : list CartItem) found :
  byKey key l = Some found → found ∈ l ∧ id found = key.
Proof.
  intros H. apply fmap_Some in H as ([j y] & Hfind & ->).
  apply list_find_Some in Hfind as (Hj & Hid & _). split; [|done].
  by apply list_elem_of_lookup_2 in Hj.
Qed.

Lemma byKey_None key (l : list CartItem) :
  byKey key l = None ↔ key ∉ (id <$> l).
Proof.
  rewrite <- findIndex_None. unfold findIndex.
  by destruct (list_find _ l) as [[j y]|].
Qed.

Lemma byKey_snoc_other key (l : list CartItem) x :
  id x ≠ key → byKey key (l ++ [x]) = byKey key l.
Proof.
  intros Hne. induction l as [|y l IH].
  - rewrite app_nil_l, byKey_cons. by rewrite decide_False.
  - rewrite <- app_comm_cons, !byKey_cons. by rewrite IH.
Qed.

Lemma byKey_snoc_new key (l : list CartItem) x :
  key ∉ (id <$> l) → id x = key → byKey key (l ++ [x]) = Some x.
Proof.
  intros Hnot Hid. induction l as [|y l IH].
  - rewrite app_nil_l, byKey_cons. by rewrite decide_True.
  - rewrite fmap_cons, not_elem_of_cons in Hnot. destruct Hnot as [Hy Hl].
    rewrite <- app_comm_cons, byKey_cons, decide_False by done. by apply IH.
Qed.

Lemma byKey_alter_other (f : CartItem → CartItem) key (l : list CartItem)
    (i : nat) :
  (∀ x, id (f x) = id x) →
  (∀ y, l !! i = Some y → id y ≠ key) →
  byKey key (alter f i l) = byKey key l.
Proof.
  intros Hf. revert i. induction l as [|x l IH]; intros i Hi; [done|].
  destruct i as [|i].
  - cbn [alter list_alter].
    rewrite !byKey_cons, Hf. by rewrite !decide_False by by apply Hi.
  - cbn [alter list_alter].
    rewrite !byKey_cons. destruct (decide (id x = key)); [done|].
    apply IH. intros y Hy. by apply Hi.
Qed.

Lemma findIndex_cons key (x : CartItem) (l : list CartItem) :
  findIndex key (x :: l)
  = if decide (id x = key) then Some 0%nat else S <$> findIndex key l.
Proof.
  unfold findIndex. simpl. destruct (decide (id x = key)); [done|].
  by destruct (list_find _ l) as [[j y]|].
Qed.

Lemma byKey_alter_same (f : CartItem → CartItem) key (l : list CartItem)
    (i : nat) :
  (∀ x, id (f x) = id x) →
  findIndex key l = Some i →
  byKey key (alter f i l) = f <$> byKey key l.
Proof.
  intros Hf. revert i. induction l as [|x l IH]; intros i Hi; [done|].
  rewrite byKey_cons. rewrite findIndex_cons in Hi.
  destruct (decide (id x = key)) as [Hx|Hx].
  - injection Hi as <-. cbn [alter list_alter].
    rewrite byKey_cons, Hf. by rewrite decide_True.
  - destruct (findIndex key l) as [j|] eqn:Hfind; [|done].
    injection Hi as <-. cbn [alter list_alter].
    rewrite byKey_cons, decide_False by done. by apply IH.
Qed.

Lemma byKey_filter_other key key' (l : list CartItem) :
  key' ≠ key →
  byKey key' (filter (λ item, id item ≠ key) l) = byKey key' l.
Proof.
  intros Hne. induction l as [|x l IH]; [done|].
  rewrite filter_cons, byKey_cons.
  destruct (decide (id x ≠ key)) as [Hx|Hx].
  - by rewrite byKey_cons, IH.
  - rewrite decide_False; [done|]. intros Heq. apply Hx. congruence.
Qed.

Lemma hasItem_elem key s : hasItem key s = true ↔ key ∈ (id <$> items s).
Proof.
  unfold hasItem. rewrite existsb_exists, list_elem_of_fmap. split.
  - intros (x & Hin & Hx). apply bool_decide_eq_true in Hx.
    exists x. split; [done|]. by apply list_elem_of_In.
  - intros (x & -> & Hin). exists x. split; [by apply list_elem_of_In|].
    by apply bool_decide_eq_true.
Qed.

Lemma hasItem_false key s : hasItem key s = false ↔ key ∉ (id <$> items s).
Proof.
  rewrite <- hasItem_elem. destruct (hasItem key s); split; try done.
Qed.

(** X1.  After [addItem], [hasItem] finds the identifier and [getItem]
    returns an entry that carries it: the item stamped with the time and
    quantity 1 when the identifier was new.  Looking up any other identifier
    gives what it gave before. *)
Theorem addItem_then_lookup (s : CartState) (item : CartItem) (now : Z) :
  let s' := addItem item now s in
  hasItem (id item) s' = true
  ∧ (∃ found, getItem (id item) s' = Some found ∧ id found = id item)
  ∧ (hasItem (id item) s = false →
     getItem (id item) s'
     = Some (with_quantity (with_addedAt item now) (Some 1))
     ∧ items s' = items s ++ [with_quantity (with_addedAt item now) (Some 1)])
  ∧ (∀ key, key ≠ id item → getItem key s' = getItem key s).
Proof.
  intros s'. subst s'. unfold addItem, getItem. simpl.
  destruct (findIndex (id item) (items s)) as [i|] eqn:Hfind; simpl.
  - pose proof (findIndex_Some _ _ _ Hfind) as (old & Hi & Hid).
    assert (id item ∈ id <$> items s) as Hin.
    { rewrite <- Hid. apply list_elem_of_fmap. exists old. split; [done|].
      by apply list_elem_of_lookup_2 in Hi. }
    split; [|split; [|split]].
    + apply hasItem_elem. simpl. by rewrite ids_alter.
    + rewrite byKey_alter_same by done.
      destruct (byKey (id item) (items s)) as [found|] eqn:Hfound.
      * apply byKey_Some in Hfound as [_ Hfid]. by eexists.
      * apply byKey_None in Hfound. done.
    + intros Hnot. apply hasItem_false in Hnot. done.
    + intros key Hne. apply byKey_alter_other; [done|].
      intros y Hy. congruence.
  - apply findIndex_None in Hfind. split; [|split; [|split]].
    + apply hasItem_elem. simpl. rewrite fmap_app. apply elem_of_app.
      right. apply list_elem_of_here.
    + rewrite byKey_snoc_new by done. by eexists.
    + intros _. by rewrite byKey_snoc_new.
    + intros key Hne. by apply byKey_snoc_other.
Qed.

Lemma addItem_then_lookup_witness :
  getItem "note-1" (addItem exampleItem 7 initialState)
  = Some (with_quantity (with_addedAt exampleItem 7) (Some 1)).
Proof.
  apply (proj1 (proj2 (proj2 (addItem_then_lookup initialState exampleItem 7)))).
  reflexivity.
Defined.

(** X2.  After [removeItem], [hasItem] and [getItem] no longer find the
    identifier, every other identifier is looked up as before, and removing
    an identifier that is not in the cart leaves the item list as it is. *)
Theorem removeItem_then_lookup (s : CartState) (key : string) :
  let s' := removeItem key s in
  hasItem key s' = false
  ∧ getItem key s' = None
  ∧ (∀ key', key' ≠ key → getItem key' s' = getItem key' s)
  ∧ (hasItem key s = false → items s' = items s).
Proof.
  intros s'. subst s'. unfold removeItem, getItem. simpl.
  assert (key ∉ id <$> filter (λ item, id item ≠ key) (items s)) as Hgone.
  { intros Hin. apply list_elem_of_fmap in Hin as (x & -> & Hx).
    by apply list_elem_of_filter in Hx as [Hx _]. }
  split; [by apply hasItem_false|]. split; [by apply byKey_None|].
  split; [intros key' Hne; by apply byKey_filter_other|].
  intros Hnot. apply hasItem_false in Hnot.
  induction (items s) as [|x l IH]; [done|].
  rewrite fmap_cons, not_elem_of_cons in Hnot. destruct Hnot as [Hx Hl].
  rewrite filter_cons, decide_True by done. f_equal. apply IH; [|done].
  intros Hin. apply list_elem_of_fmap in Hin as (y & -> & Hy).
  by apply list_elem_of_filter in Hy as [Hy _].
Qed.

Lemma removeItem_then_lookup_witness :
  items (removeItem "note-2" exampleCart) = items exampleCart.
Proof.
  apply (proj2 (proj2 (proj2 (removeItem_then_lookup exampleCart "note-2")))).
  reflexivity.
Defined.

End CartLookup.

(** ** Counting the cart *)

Section CartCounts.
Import Cart.

Lemma filter_absent key (l : list CartItem) :
  key ∉ (id <$> l) → filter (λ item, id item ≠ key) l = l.
Proof.
  induction l as [|x l IH]; [done|].
  rewrite fmap_cons, not_elem_of_cons. intros [Hx Hl].
  rewrite filter_cons, decide_True by done. f_equal. by apply IH.
Qed.

Lemma filter_present key (l : list CartItem) found :
  NoDup (id <$> l) →
  snd <$> list_find (λ item, id item = key) l = Some found →
  exactTotal (filter (λ item, id item ≠ key) l)
  = exactTotal l - Js.or_1 (quantity found)
  ∧ S (length (filter (λ item, id item ≠ key) l)) = length l.
Proof.
  induction l as [|x l IH]; [done|].
  rewrite fmap_cons, NoDup_cons, byKey_cons, filter_cons. intros [Hx Hnd] Hfind.
  destruct (decide (id x = key)) as [Heq|Hne].
  - injection Hfind as <-. rewrite decide_False by (intros H; by apply H).
    rewrite filter_absent by by rewrite <- Heq.
    rewrite exactTotal_cons. split; [lia|done].
  - rewrite decide_True by done. destruct (IH Hnd Hfind) as [Hcount Hlen].
    rewrite !exactTotal_cons, Hcount. split; [lia|]. simpl. by rewrite Hlen.
Qed.

Lemma stored_quantity (l : list CartItem) item q :
  wellFormed l → item ∈ l → quantity item = Some q → 1 ≤ q ∧ Js.or_1 (quantity item) = q.
Proof.
  intros [_ Hq] Hin Hitem. rewrite Forall_forall in Hq.
  destruct (Hq _ Hin) as (q' & Hq' & Hpos).
  assert (q' = q) as -> by congruence. split; [done|].
  rewrite Hitem. destruct q; simpl; lia.
Qed.

(** X3.  In a cart whose entries have distinct identifiers and quantities of
    at least 1 that add up to less than [2^53], [addItem] raises
    [totalItems] by exactly one, and raises [uniqueItems] by one when the
    identifier is new and not at all when it is already there. *)
Theorem addItem_counts (s : CartState) (item : CartItem) (now : Z) :
  wellFormed (items s) →
  exactTotal (items s) < 2 ^ 53 →
  let before := cartStats s in
  let after := cartStats (addItem item now s) in
  totalItems after = totalItems before + 1
  ∧ uniqueItems after
    = (uniqueItems before + if hasItem (id item) s then 0 else 1)%nat.
Proof.
  intros Hwf Hsum. cbv zeta. split.
  - pose proof (exactTotal_addItem s item now Hwf Hsum) as Hafter.
    rewrite !totalItems_exact; [done|apply Hwf|lia| |lia].
    apply wellFormed_ADD_ITEM; [done|done|]. exists 1. by split.
  - unfold addItem. simpl.
    destruct (findIndex (id item) (items s)) as [i|] eqn:Hfind; simpl.
    + pose proof (findIndex_Some _ _ _ Hfind) as (old & Hi & Hid).
      pose proof (list_elem_of_lookup_2 _ _ _ Hi) as Hin.
      assert (hasItem (id item) s = true) as ->.
      { apply hasItem_elem. rewrite <- Hid. apply list_elem_of_fmap. eauto. }
      rewrite length_alter. lia.
    + assert (hasItem (id item) s = false) as ->.
      { apply hasItem_false. by apply findIndex_None. }
      rewrite length_app. simpl. lia.
Qed.

Lemma addItem_counts_witness :
  totalItems (cartStats (addItem exampleItem 9 exampleCart))
  = totalItems (cartStats exampleCart) + 1.
Proof.
  apply (addItem_counts exampleCart exampleItem 9).
  - split.
    + apply NoDup_singleton.
    + apply Forall_singleton. exists 1. split; [reflexivity|lia].
  - by vm_compute.
Defined.

(** X4.  In such a cart, with quantities that add up to at most [2^53],
    removing the entry that [getItem] finds lowers [totalItems] by that
    entry's quantity and [uniqueItems] by one. *)
Theorem removeItem_counts (s : CartState) (key : string) (found : CartItem)
    (q : Z) :
  wellFormed (items s) →
  exactTotal (items s) ≤ 2 ^ 53 →
  getItem key s = Some found →
  quantity found = Some q →
  totalItems (cartStats (removeItem key s)) = totalItems (cartStats s) - q
  ∧ S (uniqueItems (cartStats (removeItem key s))) = uniqueItems (cartStats s).
Proof.
  intros Hwf Hsum Hfind Hq. unfold getItem in Hfind.
  destruct (filter_present key (items s) found (proj1 Hwf) Hfind)
    as [Hcount Hlen].
  apply byKey_Some in Hfind as [Hin _].
  destruct (stored_quantity _ _ _ Hwf Hin Hq) as [Hpos Hor].
  split; [|done].
  rewrite !totalItems_exact; [|apply Hwf|done| |].
  - unfold removeItem. simpl. lia.
  - apply (wellFormed_REMOVE_ITEM s key Hwf).
  - unfold removeItem in *. simpl in *. lia.
Qed.

Lemma removeItem_counts_witness :
  totalItems (cartStats (removeItem "note-1" exampleCart))
  = totalItems (cartStats exampleCart) - 1.
Proof.
  apply (removeItem_counts exampleCart "note-1" exampleItem 1).
  - split.
    + apply NoDup_singleton.
    + apply Forall_singleton. exists 1. split; [reflexivity|lia].
  - by vm_compute.
  - reflexivity.
  - reflexivity.
Defined.

Lemma exactTotal_set_quantity key q (l : list CartItem) found old :
  NoDup (id <$> l) →
  snd <$> list_find (λ item, id item = key) l = Some found →
  quantity found = Some old → 1 ≤ old → 1 ≤ q →
  exactTotal ((λ item, if decide (id item = key)
                       then with_quantity item (Some (Z.max 1 q)) else item)
              <$> l)
  = exactTotal l - old + q.
Proof.
  intros Hnd Hfind Hold Hpos Hq. induction l as [|x l IH]; [done|].
  rewrite fmap_cons in Hnd. apply NoDup_cons in Hnd as [Hx Hnd].
  rewrite byKey_cons in Hfind. rewrite fmap_cons, !exactTotal_cons.
  destruct (decide (id x = key)) as [Heq|Hne].
  - injection Hfind as <-. rewrite update_absent by by rewrite <- Heq.
    simpl. rewrite Hold, Z.max_r by lia. destruct old, q; simpl; lia.
  - rewrite (IH Hnd Hfind). lia.
Qed.

(** X5.  [updateItemQuantity] with quantities of at least 1: a later update
    of the same identifier overrides an earlier one, and an update leaves
    [uniqueItems] as it is.  In a cart with distinct identifiers and
    quantities of at least 1, setting the quantity of an entry from [old] to
    [q] changes [totalItems] by [q - old], as long as the quantities add up
    to at most [2^53] before and after. *)
Theorem updateItemQuantity_composes (s : CartState) (key : string) (q1 q2 : Z) :
  1 ≤ q1 → 1 ≤ q2 →
  items (updateItemQuantity key q2 (updateItemQuantity key q1 s))
  = items (updateItemQuantity key q2 s)
  ∧ uniqueItems (cartStats (updateItemQuantity key q2 s))
    = uniqueItems (cartStats s)
  ∧ (∀ found old,
       wellFormed (items s) → getItem key s = Some found →
       quantity found = Some old →
       exactTotal (items s) ≤ 2 ^ 53 →
       exactTotal (items s) - old + q2 ≤ 2 ^ 53 →
       totalItems (cartStats (updateItemQuantity key q2 s))
       = totalItems (cartStats s) - old + q2).
Proof.
  intros Hq1 Hq2. unfold updateItemQuantity.
  rewrite !(proj2 (Z.leb_gt _ 0)) by lia. split; [|split].
  - simpl. rewrite <- list_fmap_compose. apply list_fmap_ext. intros i x _.
    simpl. destruct (decide (id x = key)) as [Hx|Hx]; simpl.
    + by rewrite decide_True.
    + by rewrite decide_False.
  - simpl. by rewrite length_fmap.
  - intros found old Hwf Hfind Hold Hbefore Hafter.
    pose proof (byKey_Some _ _ _ Hfind) as [Hin _].
    destruct (stored_quantity _ _ _ Hwf Hin Hold) as [Hpos _].
    pose proof (exactTotal_set_quantity key q2 (items s) found old (proj1 Hwf)
                  Hfind Hold Hpos Hq2) as Hset.
    rewrite !totalItems_exact; [|apply Hwf|done| |].
    + simpl. lia.
    + apply (wellFormed_UPDATE_QUANTITY s key q2 Hwf).
    + simpl. lia.
Qed.

Lemma updateItemQuantity_composes_witness :
  items (updateItemQuantity "note-1" 5 (updateItemQuantity "note-1" 2 exampleCart))
  = items (updateItemQuantity "note-1" 5 exampleCart).
Proof.
  apply (updateItemQuantity_composes exampleCart "note-1" 2 5); lia.
Defined.

End CartCounts.

(** ** Saving and restoring the cart *)

Section CartStorage.
Import Json Cart.

Lemma finite_class (x : float) negative m e :
  Prim2SF x = S754_finite negative m e →
  PrimFloat.is_nan x = false ∧ PrimFloat.is_zero x = false
  ∧ PrimFloat.is_infinity x = false.
Proof.
  unfold Prim2SF.
  destruct (PrimFloat.is_nan x); [discriminate|].
  destruct (PrimFloat.is_zero x); [discriminate|].
  destruct (PrimFloat.is_infinity x); [discriminate|]. done.
Qed.

Lemma is_zero_cases (x : float) :
  PrimFloat.is_zero x = true → x = 0%float ∨ x = PrimFloat.neg_zero.
Proof.
  unfold PrimFloat.is_zero. rewrite FloatAxioms.eqb_spec. intros H.
  rewrite <- (SF2Prim_Prim2SF x).
  destruct (Prim2SF x) as [negative| | |]; try discriminate H.
  - destruct negative; [by right|by left].
  - by destruct s.
  - by destruct s.
Qed.


Lemma jsonNumber_price (x : float) :
  PrimFloat.is_finite x = true → x ≠ PrimFloat.neg_zero → jsonNumber x = JNum x.
Proof.
  unfold PrimFloat.is_finite, jsonNumber. intros Hfin Hneg.
  apply negb_true_iff in Hfin. rewrite Hfin.
  destruct (PrimFloat.is_zero x) eqn:Hz; [|done].
  by destruct (is_zero_cases x Hz) as [->| ->].
Qed.

Lemma exact_quantity (q : Z) :
  q ≠ 0 → exactInDouble q →
  jsonNumber (Js.float_of_Z q) = JNum (Js.float_of_Z q)
  ∧ Js.truthy_number (Js.float_of_Z q) = true.
Proof.
  unfold exactInDouble, Js.Z_of_float. intros Hq Hexact.
  destruct (Prim2SF (Js.float_of_Z q)) as [| | |negative m e] eqn:Hsf;
    try discriminate.
  - injection Hexact as <-. done.
  - destruct (finite_class _ _ _ _ Hsf) as (Hnan & Hzero & Hinf).
    split.
    + unfold jsonNumber. by rewrite Hnan, Hinf, Hzero.
    + unfold Js.truthy_number. rewrite Hnan.
      change (PrimFloat.eqb (Js.float_of_Z q) 0%float)
        with (PrimFloat.is_zero (Js.float_of_Z q)).
      by rewrite Hzero.
Qed.
Lemma readItem_itemJson (now : Z) (item : CartItem) :
  storable item → readItem now (itemJson item) = Some item.
Proof.
  destruct item as [i t p th se su a qty].
  intros (Hfin & Hneg & q & Hq & Hq0 & Hexact). simpl in *. subst qty.
  destruct (exact_quantity q Hq0 Hexact) as [Hnum Htruthy].
  unfold readItem, itemJson. cbn [price quantity id title thumbnail seller
                                  subject addedAt].
  rewrite (jsonNumber_price p Hfin Hneg), Hnum. cbn -[Js.float_of_Z].
  rewrite Htruthy. by rewrite Hexact.
Qed.

(** X6.  Once loading is over the cart is saved whenever it changes; when
    the storage takes the write and every entry has a finite price other
    than negative zero and a non-zero quantity that binary64 holds exactly,
    the next initialisation restores exactly the saved items. *)
Theorem cart_restored_after_save (state : CartState) (store : Storage)
    (now : Z) :
  isLoading state = false →
  writable store = true →
  Forall storable (items state) →
  initializeCart now (persistCart state store)
  = Read (mkCartState (items state) false None).
Proof.
  intros Hloaded Hwrite Hitems.
  unfold persistCart, saveCartData, initializeCart.
  rewrite Hloaded, Hwrite. cbn [negb entries]. rewrite lookup_insert_eq.
  cbn [truthy_text parseCartData].
  assert (existsb isNull (itemJson <$> items state) = false) as ->.
  { clear. induction (items state) as [|x l IH]; [done|]. simpl. exact IH. }
  rewrite (mapM_fmap_Forall_Some (readItem now) itemJson).
  - reflexivity.
  - eapply Forall_impl; [exact Hitems|]. intros item. apply readItem_itemJson.
Qed.

Lemma exampleItem_storable : storable exampleItem.
Proof.
  split; [reflexivity|]. split.
  - intros H.
    apply (f_equal (λ x, PrimFloat.Leibniz.eqb x PrimFloat.neg_zero)) in H.
    vm_compute in H. discriminate H.
  - exists 1. split; [reflexivity|]. split; [lia|reflexivity].
Defined.

Lemma cart_restored_after_save_witness :
  initializeCart 0 (persistCart exampleCart (mkStorage ∅ true))
  = Read (mkCartState [exampleItem] false None).
Proof.
  apply (cart_restored_after_save exampleCart (mkStorage ∅ true) 0).
  - reflexivity.
  - reflexivity.
  - apply Forall_singleton. exact exampleItem_storable.
Defined.







End CartStorage.

(** ** Totals by subject *)

Section CartSubjects.
Import Cart.

Lemma filter_all (P : CartItem → Prop) `{∀ x, Decision (P x)}
    (l : list CartItem) :
  Forall P l → filter P l = l.
Proof.
  induction 1 as [|x l Hx _ IH]; [done|].
  by rewrite filter_cons, decide_True, IH.
Qed.

Lemma filter_none (P : CartItem → Prop) `{∀ x, Decision (P x)}
    (l : list CartItem) :
  Forall (λ x, ¬ P x) l → filter P l = [].
Proof.
  induction 1 as [|x l Hx _ IH]; [done|].
  by rewrite filter_cons, decide_False, IH.
Qed.

(** X8.  [getTotalBySubject] is the cart's total price when every entry has
    the subject, and 0 when no entry has it (in particular for the empty
    cart). *)
Theorem getTotalBySubject_all_or_none (s : CartState) (subj : string) :
  (Forall (λ item, subject item = subj) (items s) →
   getTotalBySubject subj s = totalPrice (cartStats s))
  ∧ (Forall (λ item, subject item ≠ subj) (items s) →
     getTotalBySubject subj s = 0%float).
Proof.
  unfold getTotalBySubject. split; intros Hall.
  - by rewrite filter_all.
  - by rewrite filter_none.
Qed.

Lemma getTotalBySubject_all_or_none_witness :
  getTotalBySubject "Mathematics" exampleCart = totalPrice (cartStats exampleCart)
  ∧ getTotalBySubject "Physics" exampleCart = 0%float.
Proof.
  split.
  - apply (proj1 (getTotalBySubject_all_or_none exampleCart "Mathematics")).
    apply Forall_singleton. reflexivity.
  - apply (proj2 (getTotalBySubject_all_or_none exampleCart "Physics")).
    apply Forall_singleton. discriminate.
Defined.

End CartSubjects.

(** ** The cart as the pages drive it *)

Section CardFacts.
Import Cart NoteCard.

(** What the card and the cart page keep true of the item list. *)
#[warnings="-inconsistent-scopes"] Local Abbreviation tidy l :=
  (NoDup (Cart.id <$> l)
   ∧ Forall (λ item : CartItem,
               quantity item = Some 1 ∧ Cart.id item ≠ ""
               ∧ PrimFloat.leb 0%float (Cart.price item) = true) l).

Lemma addItem_new (s : CartState) (item : CartItem) (now : Z) :
  hasItem (Cart.id item) s = false →
  items (addItem item now s)
  = items s ++ [with_quantity (with_addedAt item now) (Some 1)].
Proof.
  intros Hnew. apply hasItem_false in Hnew. apply findIndex_None in Hnew.
  unfold addItem. simpl. by rewrite Hnew.
Qed.

Lemma validateNote_fields (note : Note) :
  validateNote note = true →
  NoteCard.id note ≠ "" ∧ PrimFloat.leb 0%float (NoteCard.price note) = true.
Proof.
  unfold validateNote. rewrite !andb_true_iff.
  intros [[[[[[[[[[[Hid _] Hprice] _] _] _] _] _] _] _] _] _].
  split; [|done]. by destruct (NoteCard.id note).
Qed.

Lemma tidy_uiStep (cart : CartState) (e : UiEvent) :
  tidy (items cart) → tidy (items (uiStep cart e)).
Proof.
  intros [Hnd Hall]. destruct e as [auth note now|itemId|]; simpl.
  - unfold handleAddToCart.
    destruct (validateNote note) eqn:Hvalid; simpl; [|done].
    destruct auth; simpl; [|done].
    destruct (hasItem (NoteCard.id note) cart) eqn:Hhas; simpl; [done|].
    rewrite addItem_new by done.
    destruct (validateNote_fields note Hvalid) as [Hid Hprice].
    apply hasItem_false in Hhas. split.
    + rewrite fmap_app. apply NoDup_app. split; [done|]. split.
      * intros x Hx Hin. apply list_elem_of_singleton in Hin. by subst.
      * apply NoDup_singleton.
    + apply Forall_app. split; [done|]. by apply Forall_singleton.
  - split.
    + by apply NoDup_ids_filter.
    + rewrite Forall_forall in Hall. apply Forall_forall. intros x Hx.
      apply list_elem_of_filter in Hx as [_ Hx]. by apply Hall.
  - unfold handleClearCart. destruct (length (items cart) =? 0)%nat; [done|].
    split; [apply NoDup_nil_2|apply Forall_nil_2].
Qed.

Lemma tidy_count (l : list CartItem) :
  Forall (λ item, quantity item = Some 1) l →
  exactTotal l = Z.of_nat (length l).
Proof.
  induction 1 as [|x l Hx _ IH]; [done|].
  rewrite exactTotal_cons, IH, Hx. simpl. lia.
Qed.

(** X9.  Whatever sequence of add-button clicks on note cards (rendered
    without the [isInCart] prop), removals and clear-cart clicks starts from
    the empty cart: the identifiers stay distinct, every entry has quantity
    1, a non-empty identifier and a price of at least 0, and [totalItems]
    equals [uniqueItems] (binary64 counts the entries exactly up to [2^53]
    of them, far more than an array holds).  The card never adds an item
    twice. *)
Theorem card_quantities_stay_one (events : list UiEvent) :
  let s := uiRun events in
  NoDup (Cart.id <$> items s)
  ∧ Forall (λ item, quantity item = Some 1 ∧ Cart.id item ≠ ""
                    ∧ PrimFloat.leb 0%float (Cart.price item) = true)
           (items s)
  ∧ (Z.of_nat (uniqueItems (cartStats s)) ≤ 2 ^ 53 →
     totalItems (cartStats s) = Z.of_nat (uniqueItems (cartStats s))).
Proof.
  intros s.
  assert (tidy (items s)) as [Hnd Hall].
  { subst s. unfold uiRun.
    assert (tidy (items initialState)) as Hinit
      by (split; [apply NoDup_nil_2|apply Forall_nil_2]).
    revert Hinit. generalize initialState.
    induction events as [|e events IH]; intros cart Hcart; [done|].
    simpl. apply IH. by apply tidy_uiStep. }
  split; [done|]. split; [done|]. cbn [uniqueItems cartStats]. intros Hlen.
  assert (exactTotal (items s) = Z.of_nat (length (items s))) as Hexact.
  { apply tidy_count. eapply Forall_impl; [exact Hall|]. by intros item [Hq _]. }
  rewrite totalItems_exact; [done| |lia].
  eapply Forall_impl; [exact Hall|]. intros item [Hq _]. exists 1. by split.
Qed.

End CardFacts.

(** ** Signing in, signing out and restoring the session *)

Section SessionFacts.
Import Json Auth.

Variable isValidEmail : string → bool.

(** X10.  [login] with an email that passes the validation, a password of at
    least six characters and a storage that takes the write succeeds after
    one API delay: the user has the generated identifier, the email in
    lower case and trimmed, the text before the at sign as name and the role
    that [determineUserRole] reads off the email; the user is persisted, and
    a later initialisation restores that user provided identifier, stored
    email and name are not empty. *)
Theorem login_success (email password : string) (env : Env) (w : World) :
  isValidEmail email = true →
  validatePassword password = true →
  writable (storage w) = true →
  let r := login isValidEmail email password env w in
  let u := mkUser (generatedId env) (Js.trim (Js.toLowerCase email))
             (Js.beforeFirst "@" email) (determineUserRole email)
             (Some (generateAvatarUrl email)) (createdNow env)
             (Some (loginNow env)) in
  fst r = Ok tt
  ∧ state (snd r) = mkAuthState (Some u) false None
  ∧ events (snd r) = events w ++ [ApiDelay 1000]
  ∧ entries (storage (snd r))
    = <[LOCAL_STORAGE_KEYS_USER := Doc (userJson u)]> (entries (storage w))
  ∧ (generatedId env ≠ "" → Js.trim (Js.toLowerCase email) ≠ "" →
     Js.beforeFirst "@" email ≠ "" →
     ∀ now, ∃ w', initializeAuth now (storage (snd r)) = Read w'
                  ∧ state w' = mkAuthState (Some u) false None).
Proof.
  intros Hvalid Hpass Hwrite r u.
  assert (r = (Ok tt, mkWorld (mkAuthState (Some u) false None)
                        (mkStorage (<[LOCAL_STORAGE_KEYS_USER := Doc (userJson u)]>
                                      (entries (storage w))) true)
                        (events w ++ [ApiDelay 1000]))) as Hr.
  { subst r. unfold login, saveUserData, tryCatch, mbind, M_bind, dispatch,
      simulateApiDelay, emit, setItem. cbn [state storage events].
    rewrite Hvalid, Hpass. cbn [negb mret M_ret state storage events].
    rewrite Hwrite. reflexivity. }
  rewrite Hr. cbn [fst snd state storage events entries].
  repeat split.
  intros Hid Hemail Hname now. unfold initializeAuth. cbn [entries].
  rewrite lookup_insert_eq. cbn [truthy_text].
  rewrite (parseUserData_userJson u now) by done.
  eexists. split; reflexivity.
Qed.

(** X11.  When [login] throws, it throws an [AuthError]: INVALID_EMAIL when
    the email fails the validation, else WEAK_PASSWORD when the password is
    shorter than six characters, else STORAGE_ERROR because the write
    failed.  The error is recorded in the state, loading is over, and the
    signed-in user and the storage are as they were. *)
Theorem login_failure (email password : string) (env : Env) (w : World)
    (e : exn) :
  let r := login isValidEmail email password env w in
  fst r = Thrown e →
  ∃ err,
    e = ExnAuth err
    ∧ type err = (if negb (isValidEmail email) then INVALID_EMAIL
                  else if negb (validatePassword password) then WEAK_PASSWORD
                  else STORAGE_ERROR)
    ∧ state (snd r) = mkAuthState (user (state w)) false (Some err)
    ∧ storage (snd r) = storage w.
Proof.
  unfold login, saveUserData, tryCatch, mbind, M_bind, dispatch,
    simulateApiDelay, emit, setItem, rethrow, throw.
  cbn [state storage events].
  destruct (isValidEmail email); cbn [negb mret M_ret state storage events fst snd].
  - destruct (validatePassword password);
      cbn [negb mret M_ret state storage events fst snd].
    + destruct (writable (storage w)) eqn:Hwrite;
        cbn [state storage events fst snd authReducer user]; [discriminate|].
      intros H. injection H as <-. eexists. repeat split; by destruct (storage w).
    + intros H. injection H as <-. eexists. repeat split; by destruct (storage w).
  - intros H. injection H as <-. eexists. repeat split; by destruct (storage w).
Qed.

(** X12.  When [register] throws, it throws an [AuthError]: INVALID_EMAIL
    for an email that fails the validation, else WEAK_PASSWORD for a short
    password, else INVALID_CREDENTIALS for a name that is empty once
    trimmed, else STORAGE_ERROR.  The error is recorded, and the signed-in
    user and the storage are as they were. *)
Theorem register_failure (email password name : string)
    (roleArg : option UserRole) (env : Env) (w : World) (e : exn) :
  let r := register isValidEmail email password name roleArg env w in
  fst r = Thrown e →
  ∃ err,
    e = ExnAuth err
    ∧ type err = (if negb (isValidEmail email) then INVALID_EMAIL
                  else if negb (validatePassword password) then WEAK_PASSWORD
                  else if negb (Js.truthy_string (Js.trim name))
                       then INVALID_CREDENTIALS
                  else STORAGE_ERROR)
    ∧ state (snd r) = mkAuthState (user (state w)) false (Some err)
    ∧ storage (snd r) = storage w.
Proof.
  unfold register, saveUserData, tryCatch, mbind, M_bind, dispatch,
    simulateApiDelay, emit, setItem, rethrow, throw.
  cbn [state storage events].
  destruct (isValidEmail email); cbn [negb mret M_ret state storage events fst snd].
  - destruct (validatePassword password);
      cbn [negb mret M_ret state storage events fst snd].
    + destruct (Js.truthy_string (Js.trim name));
        cbn [negb mret M_ret state storage events fst snd].
      * destruct (writable (storage w)) eqn:Hwrite;
          cbn [state storage events fst snd authReducer user]; [discriminate|].
        intros H. injection H as <-. eexists. repeat split; by destruct (storage w).
      * intros H. injection H as <-. eexists. repeat split; by destruct (storage w).
    + intros H. injection H as <-. eexists. repeat split; by destruct (storage w).
  - intros H. injection H as <-. eexists. repeat split; by destruct (storage w).
Qed.

End SessionFacts.

Lemma login_success_witness :
  fst (Auth.login Auth.sampleIsValidEmail "Seller@X.com" "password1"
                  Auth.sampleEnv Auth.freshWorld) = Auth.Ok tt.
Proof.
  apply (proj1 (login_success Auth.sampleIsValidEmail "Seller@X.com" "password1"
                  Auth.sampleEnv Auth.freshWorld eq_refl eq_refl eq_refl)).
Defined.

Lemma login_failure_witness :
  ∃ err,
    Auth.ExnAuth (Auth.mkAuthError Auth.WEAK_PASSWORD "Password is too weak")
    = Auth.ExnAuth err
    ∧ Auth.type err = Auth.WEAK_PASSWORD.
Proof.
  destruct (login_failure Auth.sampleIsValidEmail "jo@x.com" "pw" Auth.sampleEnv
              Auth.freshWorld _ eq_refl) as (err & Herr & Htype & _).
  exists err. split; [exact Herr|exact Htype].
Defined.

Lemma register_failure_witness :
  ∃ err,
    Auth.ExnAuth (Auth.mkAuthError Auth.INVALID_CREDENTIALS "Name is required")
    = Auth.ExnAuth err
    ∧ Auth.type err = Auth.INVALID_CREDENTIALS.
Proof.
  destruct (register_failure Auth.sampleIsValidEmail "jo@x.com" "password1" "  "
              None Auth.sampleEnv Auth.freshWorld _ eq_refl)
    as (err & Herr & Htype & _).
  exists err. split; [exact Herr|exact Htype].
Defined.

Lemma register_role_is_argument_witness :
  Auth.role <$> Auth.user (Auth.state (snd
    (Auth.register Auth.sampleIsValidEmail "jo@x.com" "password1" "Jo"
                   (Some Auth.SELLER) Auth.sampleEnv Auth.freshWorld)))
  = Some Auth.SELLER.
Proof.
  apply (register_role_is_argument Auth.sampleIsValidEmail "jo@x.com"
           "password1" "Jo" (Some Auth.SELLER) Auth.sampleEnv Auth.freshWorld).
  reflexivity.
Defined.

Section SessionLifecycle.
Import Json Auth.

(** X14.  [logout] always succeeds and leaves the state anonymous with
    loading over and no error.  When the removal goes through, the persisted
    user is removed, nothing else in the storage changes, and a later
    initialisation finds no session.  When the removal throws, the error is
    logged and the storage stays as it was, so a later initialisation gives
    what it gave before: a persisted user is signed in again. *)
Theorem logout_clears_session (removalThrows : bool) (w : World) :
  let r := logout removalThrows w in
  fst r = Ok tt
  ∧ state (snd r) = mkAuthState None false None
  ∧ (removalThrows = false →
     entries (storage (snd r))
     = delete LOCAL_STORAGE_KEYS_USER (entries (storage w))
     ∧ events (snd r) = events w
     ∧ ∀ now, ∃ w', initializeAuth now (storage (snd r)) = Read w'
                    ∧ state w' = mkAuthState None false None)
  ∧ (removalThrows = true →
     storage (snd r) = storage w
     ∧ events (snd r) = events w ++ [ConsoleError "Error during logout:"]
     ∧ ∀ now, initializeAuth now (storage (snd r))
              = initializeAuth now (storage w)).
Proof.
  destruct removalThrows; simpl; (split; [done|]); (split; [done|]); split;
    try discriminate; intros _.
  - done.
  - split; [done|]. split; [done|].
    intros now. unfold initializeAuth. simpl.
    rewrite lookup_delete_eq. eexists. split; reflexivity.
Qed.

(** A session that survives [logout]: the removal throws, and the next
    initialisation signs the user in again. *)
Lemma logout_session_survives :
  ∃ w', initializeAuth 0 (storage (snd (logout true signedInWorld))) = Read w'
        ∧ user (state w') = Some sampleUser.
Proof. eexists. split; reflexivity. Qed.

Lemma readUser_fields (parsed : json) (now : Z) (u : User) :
  readUser parsed now = Read u →
  prop parsed "id" = Some (JStr (id u))
  ∧ prop parsed "email" = Some (JStr (email u))
  ∧ prop parsed "name" = Some (JStr (name u)).
Proof.
  unfold readUser. cbv zeta.
  set (created := if truthy (prop parsed "createdAt") then _ else _).
  clearbody created.
  set (lastLogin := if truthy (prop parsed "lastLoginAt") then _ else _).
  clearbody lastLogin.
  set (avatarField := match prop parsed "avatar" with Some _ => _ | None => _ end).
  clearbody avatarField.
  set (roleField := asString (prop parsed "role") ≫= roleOfName).
  clearbody roleField.
  unfold asString.
  destruct (prop parsed "id") as [[| | |i| | |]|]; try discriminate.
  destruct (prop parsed "email") as [[| | |e| | |]|]; try discriminate.
  destruct (prop parsed "name") as [[| | |n| | |]|]; try discriminate.
  destruct roleField as [r|]; [|discriminate].
  destruct avatarField as [a|]; [|discriminate].
  destruct created as [c|]; [|discriminate].
  destruct lastLogin as [l|]; [|discriminate].
  by intros [= <-].
Qed.

Lemma truthy_JStr s : truthy (Some (JStr s)) = true → s ≠ "".
Proof. by destruct s. Qed.

Lemma initializeAuth_read (now : Z) (store : Storage) (w' : World) :
  initializeAuth now store = Read w' →
  isLoading (state w') = false
  ∧ error (state w') = None
  ∧ storage w' = store
  ∧ (entries store !! LOCAL_STORAGE_KEYS_USER = None → user (state w') = None)
  ∧ (∀ text, entries store !! LOCAL_STORAGE_KEYS_USER = Some (Malformed text) →
             user (state w') = None)
  ∧ (∀ v key, entries store !! LOCAL_STORAGE_KEYS_USER = Some (Doc v) →
              key ∈ ["id"; "email"; "name"; "role"] →
              truthy (prop v key) = false → user (state w') = None)
  ∧ (∀ u, user (state w') = Some u → id u ≠ "" ∧ email u ≠ "" ∧ name u ≠ "").
Proof.
  unfold initializeAuth.
  destruct (entries store !! LOCAL_STORAGE_KEYS_USER) as [saved|] eqn:Hsaved.
  2: { intros H. injection H as <-. simpl. repeat split; try done. }
  destruct (truthy_text saved) eqn:Htext.
  2: { intros H. injection H as <-. simpl. repeat split; try done. }
  destruct (parseUserData saved now) as [[u|]|] eqn:Hparse; [| |discriminate].
  - intros H. injection H as <-. simpl.
    unfold parseUserData in Hparse.
    destruct saved as [text|v]; [discriminate|].
    assert (∃ checks : bool, (if checks then @Read (option User) None
                       else match readUser v now with
                            | Read u => Read (Some u)
                            | IllTyped => IllTyped
                            end) = Read (Some u)
                      ∧ checks = negb (truthy (prop v "id"))
                                 || negb (truthy (prop v "email"))
                                 || negb (truthy (prop v "name"))
                                 || negb (truthy (prop v "role")))
      as (checks & Hrun & Hchecks).
    { destruct v; try discriminate Hparse; eexists; split; try exact Hparse;
        reflexivity. }
    destruct checks; [discriminate|].
    symmetry in Hchecks. rewrite !orb_false_iff, !negb_false_iff in Hchecks.
    destruct Hchecks as [[[Hid Hemail] Hname] Hrole].
    destruct (readUser v now) as [u'|] eqn:Hread; [|discriminate].
    injection Hrun as ->.
    destruct (readUser_fields v now u Hread) as (Hi & He & Hn).
    split; [done|]. split; [done|]. split; [done|]. split; [discriminate|].
    split; [intros text; discriminate|]. split.
    + intros v' key [= <-] Hkey Hfalsy.
      rewrite !elem_of_cons in Hkey.
      destruct Hkey as [->|[->|[->|[->|Hnil]]]]; try congruence.
      by apply elem_of_nil in Hnil.
    + intros u0 [= <-]. rewrite Hi in Hid. rewrite He in Hemail.
      rewrite Hn in Hname. repeat split; by apply truthy_JStr.
  - intros H. injection H as <-. simpl. repeat split; try done.
Qed.

(** A record with the fields of the interface is read. *)
Lemma readUser_typed (parsed : json) (now : Z) :
  typedUser parsed → ∃ u, readUser parsed now = Read u.
Proof.
  intros ((i & Hi) & (e & He) & (n & Hn) & (r & Hr) & Havatar & Hcreated
          & Hlogin).
  unfold readUser. cbv zeta. rewrite Hi, He, Hn, Hr.
  cbn [asString mbind option_bind]. rewrite roleOfName_roleName.
  assert (∃ a, match prop parsed "avatar" with
               | None => Some None
               | Some (JStr a) => Some (Some a)
               | Some _ => None
               end = Some a) as [a ->].
  { destruct Havatar as [->|[a ->]]; by eexists. }
  assert (∃ c, (if truthy (prop parsed "createdAt")
                then asDate (prop parsed "createdAt") else Some now) = Some c)
    as [c ->].
  { destruct (truthy (prop parsed "createdAt")); [|by eexists].
    destruct Hcreated as [c ->]; [done|]. by eexists. }
  assert (∃ l, (if truthy (prop parsed "lastLoginAt")
                then Some <$> asDate (prop parsed "lastLoginAt")
                else Some None) = Some l) as [l ->].
  { destruct (truthy (prop parsed "lastLoginAt")); [|by eexists].
    destruct Hlogin as [l ->]; [done|]. by eexists. }
  by eexists.
Qed.

(** X15.  The initialisation of the session, when the model reads the
    persisted record, ends loading with no error and leaves the storage
    untouched (an unusable record is not removed).  It is anonymous when
    there is no record, when the record is not JSON and when one of the
    identifier, email, name and role is missing or falsy; and a user it
    restores has a non-empty identifier, email and name.  The model reads
    the record in each of these anonymous cases, whatever else the record
    holds, and when the record has the fields of the [User] interface with
    their types.  Records with truthy required fields and fields of other
    types, and a storage whose [getItem] throws, are outside this
    statement. *)
Theorem initializeAuth_outcome (now : Z) (store : Storage) :
  (∀ w', initializeAuth now store = Read w' →
     isLoading (state w') = false
     ∧ error (state w') = None
     ∧ storage w' = store
     ∧ (entries store !! LOCAL_STORAGE_KEYS_USER = None → user (state w') = None)
     ∧ (∀ text, entries store !! LOCAL_STORAGE_KEYS_USER = Some (Malformed text) →
                user (state w') = None)
     ∧ (∀ v key, entries store !! LOCAL_STORAGE_KEYS_USER = Some (Doc v) →
                 key ∈ ["id"; "email"; "name"; "role"] →
                 truthy (prop v key) = false → user (state w') = None)
     ∧ (∀ u, user (state w') = Some u → id u ≠ "" ∧ email u ≠ "" ∧ name u ≠ ""))
  ∧ (entries store !! LOCAL_STORAGE_KEYS_USER = None →
     ∃ w', initializeAuth now store = Read w')
  ∧ (∀ text, entries store !! LOCAL_STORAGE_KEYS_USER = Some (Malformed text) →
             ∃ w', initializeAuth now store = Read w')
  ∧ (∀ v key, entries store !! LOCAL_STORAGE_KEYS_USER = Some (Doc v) →
              key ∈ ["id"; "email"; "name"; "role"] →
              truthy (prop v key) = false →
              ∃ w', initializeAuth now store = Read w')
  ∧ (∀ v, entries store !! LOCAL_STORAGE_KEYS_USER = Some (Doc v) →
          typedUser v → ∃ w', initializeAuth now store = Read w').
Proof.
  split; [apply initializeAuth_read|].
  unfold initializeAuth. split; [|split; [|split]].
  - intros ->. by eexists.
  - intros text ->. simpl. destruct (Js.truthy_string text); by eexists.
  - intros v key -> Hkey Hfalsy. cbn [truthy_text].
    assert (parseUserData (Doc v) now = Read None) as ->; [|by eexists].
    unfold parseUserData. destruct v; try done;
      rewrite !elem_of_cons in Hkey;
      destruct Hkey as [-> | [-> | [-> | [-> | Hnil]]]];
      try (by apply elem_of_nil in Hnil);
      rewrite Hfalsy; cbn [negb orb]; by rewrite ?orb_true_r.
  - intros v -> Htyped. cbn [truthy_text].
    destruct (readUser_typed v now Htyped) as [u Hu].
    unfold parseUserData. destruct v; try (by eexists); rewrite Hu;
      destruct (_ || _); by eexists.
Qed.

(** X16.  [refreshUser] does nothing when nobody is signed in.  For a
    signed-in user it sets the last login time and nothing else, so
    identifier, email, name, role and creation time stay; the refreshed user
    is persisted when the storage takes the write, and when it does not the
    STORAGE_ERROR escapes and state and storage stay as they were. *)
Theorem refreshUser_keeps_identity (now : Z) (w : World) :
  let r := refreshUser now w in
  (user (state w) = None → r = (Ok tt, w))
  ∧ (∀ u, user (state w) = Some u →
       let u' := mkUser (id u) (email u) (name u) (role u) (avatar u)
                        (createdAt u) (Some now) in
       (writable (storage w) = true →
        fst r = Ok tt
        ∧ state (snd r) = mkAuthState (Some u') false None
        ∧ entries (storage (snd r))
          = <[LOCAL_STORAGE_KEYS_USER := Doc (userJson u')]> (entries (storage w)))
       ∧ (writable (storage w) = false →
          fst r = Thrown (ExnAuth (mkAuthError STORAGE_ERROR
                                               "Failed to save user session"))
          ∧ state (snd r) = state w
          ∧ storage (snd r) = storage w)).
Proof.
  unfold refreshUser. split.
  - by intros ->.
  - intros u ->. unfold saveUserData, tryCatch, mbind, M_bind, dispatch, emit,
      setItem, throw. cbn [state storage events].
    split; intros ->; cbn [fst snd state storage events]; by repeat split.
Qed.

(** X17.  The role predicates: [hasAnyRole] holds exactly when [hasRole]
    holds for one of the listed roles; [hasRole] holds for exactly the role
    of the signed-in user; and nobody signed in has no role at all. *)
Theorem hasAnyRole_spec (s : AuthState) (roles : list UserRole) :
  (hasAnyRole roles s = true ↔ ∃ r, r ∈ roles ∧ hasRole r s = true)
  ∧ (∀ r, hasRole r s = true ↔ ∃ u, user s = Some u ∧ role u = r)
  ∧ (isAuthenticated s = false →
     hasAnyRole roles s = false ∧ ∀ r, hasRole r s = false).
Proof.
  unfold hasAnyRole, hasRole, isAuthenticated.
  destruct (user s) as [u|]; split; [| split | | split].
  - rewrite existsb_exists. split.
    + intros (r & Hin & Hr). apply bool_decide_eq_true in Hr. subst r.
      exists (role u). split; [by apply list_elem_of_In|].
      by apply bool_decide_eq_true.
    + intros (r & Hin & Hr). apply bool_decide_eq_true in Hr. subst r.
      exists (role u). split; [by apply list_elem_of_In|].
      by apply bool_decide_eq_true.
  - intros r. rewrite bool_decide_eq_true. split.
    + intros <-. by exists u.
    + intros (u' & Hu & <-). by injection Hu as ->.
  - discriminate.
  - split; [discriminate|]. by intros (r & _ & Hr).
  - intros r. split; [discriminate|]. by intros (u & Hu & _).
  - done.
Qed.

End SessionLifecycle.

Lemma initializeAuth_outcome_witness :
  Auth.id Auth.sampleUser ≠ "" ∧ Auth.email Auth.sampleUser ≠ ""
  ∧ Auth.name Auth.sampleUser ≠ "".
Proof.
  apply (proj2 (proj2 (proj2 (proj2 (proj2 (proj2
           (proj1 (initializeAuth_outcome 0 (Auth.storage Auth.signedInWorld))
              (Auth.mkWorld
                 (Auth.mkAuthState (Some Auth.sampleUser) false None)
                 (Auth.storage Auth.signedInWorld) [])
              eq_refl)))))) Auth.sampleUser eq_refl).
Defined.

Lemma refreshUser_keeps_identity_witness :
  fst (Auth.refreshUser 1700000009999 Auth.signedInWorld) = Auth.Ok tt.
Proof.
  apply (proj1 (proj2 (refreshUser_keeps_identity 1700000009999
                         Auth.signedInWorld) Auth.sampleUser eq_refl)).
  reflexivity.
Defined.

Lemma hasAnyRole_spec_witness :
  Auth.hasAnyRole [Auth.SELLER; Auth.BUYER]
                  (Auth.state Auth.signedInWorld) = true.
Proof.
  apply (proj1 (hasAnyRole_spec (Auth.state Auth.signedInWorld)
                  [Auth.SELLER; Auth.BUYER])).
  exists Auth.BUYER. split.
  - apply list_elem_of_further, list_elem_of_here.
  - reflexivity.
Defined.

(** ** Paying *)

Section PaymentOdds.
Import Payment Checkout.

Lemma successRate_bounds (m : PaymentMethod) :
  (9 # 10 <= Js.Q_of_float (successRates m))%Q
  ∧ (Js.Q_of_float (successRates m) <= 97 # 100)%Q.
Proof. destruct m; split; vm_compute; discriminate. Qed.

(** X18.  The wait of [processPayment] is computed in binary64.  For a
    draw of [Math.random()], which is at least 0 and below 1, it is at
    least 2000 and at most 5000 milliseconds; it is 2000 for the draw 0, and
    exactly 5000 for the largest draw below 1, where the sum rounds up: the
    wait can reach 5000.  Whatever the method, the payment succeeds when
    the outcome draw is below 0.9 and fails when the outcome draw is 0.97
    or more. *)
Theorem processPayment_timing_and_odds (fmt : Js.Format) (draws : Draws)
    (request : PaymentRequest) :
  let r := processPayment fmt draws request in
  (PrimFloat.leb 0 (delayDraw draws) = true →
   PrimFloat.ltb (delayDraw draws) 1 = true →
   PrimFloat.leb 2000 (fst r) = true ∧ PrimFloat.leb (fst r) 5000 = true)
  ∧ (delayDraw draws = 0%float → fst r = 2000%float)
  ∧ (delayDraw draws = PrimFloat.next_down 1%float → fst r = 5000%float)
  ∧ ((successDraw draws < 9 # 10)%Q → success (snd r) = true)
  ∧ ((97 # 100 <= successDraw draws)%Q → success (snd r) = false).
Proof.
  cbn [processPayment fst snd success].
  destruct (successRate_bounds (method request)) as [Hlow Hhigh].
  split; [apply delay_between|]. split; [by intros ->|].
  split; [intros ->; by vm_compute|]. split; intros Hdraw.
  - destruct (Qle_bool _ _) eqn:Hle; [|done].
    apply Qle_bool_iff in Hle. lra.
  - destruct (Qle_bool _ _) eqn:Hle; [done|].
    assert (Js.Q_of_float (successRates (method request)) <= successDraw draws)%Q
      as Hle' by lra.
    apply Qle_bool_iff in Hle'. congruence.
Qed.

Lemma processPayment_timing_and_odds_witness :
  PrimFloat.leb (fst (processPayment sampleFormat sampleDraws emptyRequest))
                5000 = true
  ∧ success (snd (processPayment sampleFormat sampleDraws emptyRequest)) = true.
Proof.
  split.
  - apply (proj1 (processPayment_timing_and_odds sampleFormat sampleDraws
                    emptyRequest)); reflexivity.
  - apply (proj1 (proj2 (proj2 (proj2
             (processPayment_timing_and_odds sampleFormat sampleDraws
                emptyRequest))))).
    reflexivity.
Defined.

Local Ltac sublist_of_fixed :=
  repeat first [apply sublist_nil | apply sublist_skip | apply sublist_cons].

(** X19.  The errors of [validatePaymentRequest] come in a fixed order, each
    at most once, and the message about a missing payment method is never
    among them: a request always has a method.  For the request that the
    checkout page prepares from a cart that is not empty, only the amount,
    the customer email and the customer name can fail. *)
Theorem validatePaymentRequest_errors :
  (∀ request,
     sublist (validatePaymentRequest request)
             ["Invalid payment amount"; "Currency is required";
              "No items to purchase"; "Customer email is required";
              "Customer name is required"])
  ∧ (∀ cart totalPrice customer via,
       cart ≠ [] →
       sublist (validatePaymentRequest
                  (paymentRequestOf cart totalPrice customer via))
               ["Invalid payment amount"; "Customer email is required";
                "Customer name is required"]).
Proof.
  split.
  - intros [a c m l [e n]]. unfold validatePaymentRequest. simpl.
    assert (Js.truthy_string (methodName m) = true) as -> by by destruct m.
    destruct (negb (Js.truthy_number a) || PrimFloat.leb a 0%float),
      (Js.truthy_string c), l, (Js.truthy_string e), (Js.truthy_string n);
      simpl; sublist_of_fixed.
  - intros cart totalPrice [e n] via Hcart.
    destruct cart as [|item cart]; [done|].
    unfold validatePaymentRequest, paymentRequestOf. simpl.
    assert (Js.truthy_string (methodName via) = true) as -> by by destruct via.
    destruct (negb _ || _), (Js.truthy_string e), (Js.truthy_string n);
      simpl; sublist_of_fixed.
Qed.

Lemma validatePaymentRequest_errors_witness :
  sublist (validatePaymentRequest
             (paymentRequestOf (Cart.items Cart.exampleCart) 15.99%float
                               (mkCustomerInfo "" "Jo") STRIPE))
          ["Invalid payment amount"; "Customer email is required";
           "Customer name is required"].
Proof.
  apply (proj2 validatePaymentRequest_errors). discriminate.
Defined.

(** X20.  [handleCheckout] clears the cart exactly when it calls [navigate]
    with an order, and it does so only after the cart was not empty, the
    request passed the validation and the payment succeeded; the order then
    carries a transaction identifier, the lines of the request, the summary
    total, the chosen method and the date.  The target of that call is
    [ROUTES.ORDERS], which is [undefined]: [ROUTES] has no [ORDERS] key and
    none of its paths is the one of the orders page, so the call does not
    name the orders page. *)
Theorem checkout_clears_cart_only_on_success (fmt : Js.Format) (draws : Draws)
    (now : Z) (cart : list Cart.CartItem) (totalPrice : float)
    (customer : CustomerInfo) (via : PaymentMethod) :
  let effects := handleCheckout fmt draws now cart totalPrice customer via in
  let request := paymentRequestOf cart totalPrice customer via in
  (ClearCart ∈ effects ↔ ∃ to d, Navigate to d ∈ effects)
  ∧ (∀ to d, Navigate to d ∈ effects →
       to = None
       ∧ cart ≠ []
       ∧ validatePaymentRequest request = []
       ∧ success (snd (processPayment fmt draws request)) = true
       ∧ is_Some (Checkout.transactionId d)
       ∧ Checkout.items d = Payment.items request
       ∧ Checkout.total d = Cart.total (Cart.cartSummary totalPrice)
       ∧ paymentMethod d = via
       ∧ date d = now)
  ∧ route "ORDERS" = None
  ∧ Forall (λ entry, entry.2 ≠ ORDERS_PATH) ROUTES.
Proof.
  intros effects request. subst effects.
  assert (route "ORDERS" = None) as Hroute by reflexivity.
  assert (Forall (λ entry : string * string, entry.2 ≠ ORDERS_PATH) ROUTES)
    as Hpaths by (repeat constructor; discriminate).
  unfold handleCheckout. rewrite Hroute.
  destruct cart as [|item cart].
  { simpl. split; [split|split; [|done]].
    - intros H. apply list_elem_of_singleton in H. discriminate H.
    - intros (to & d & H). apply list_elem_of_singleton in H. discriminate H.
    - intros to d H. apply list_elem_of_singleton in H. discriminate H. }
  cbn [length Nat.eqb]. fold request.
  destruct (validatePaymentRequest request) as [|err errs] eqn:Hvalid.
  2: { simpl. split; [split|split; [|done]].
       - intros H. repeat (apply elem_of_cons in H as [H|H]; [discriminate H|]).
         by apply elem_of_nil in H.
       - intros (to & d & H).
         repeat (apply elem_of_cons in H as [H|H]; [discriminate H|]).
         by apply elem_of_nil in H.
       - intros to d H.
         repeat (apply elem_of_cons in H as [H|H]; [discriminate H|]).
         by apply elem_of_nil in H. }
  cbn [length Nat.ltb Nat.leb].
  destruct (processPayment fmt draws request) as [delay result] eqn:Hpay.
  cbn [snd]. destruct (success result) eqn:Hsuccess.
  - assert (is_Some (Payment.transactionId result)) as Htxn.
    { unfold processPayment in Hpay. injection Hpay as _ <-.
      destruct (negb _) in *; [by eexists|discriminate Hsuccess]. }
    split; [split|split; [|done]].
    + intros _. do 2 eexists. simpl.
      do 4 apply list_elem_of_further. apply list_elem_of_here.
    + intros _. simpl. do 2 apply list_elem_of_further. apply list_elem_of_here.
    + intros to d H. simpl in H.
      repeat (apply elem_of_cons in H as [H|H]; [try discriminate H|]).
      * injection H as -> ->. by repeat split.
      * by apply elem_of_nil in H.
  - split; [split|split; [|done]].
    + intros H. simpl in H.
      repeat (apply elem_of_cons in H as [H|H]; [discriminate H|]).
      by apply elem_of_nil in H.
    + intros (to & d & H). simpl in H.
      repeat (apply elem_of_cons in H as [H|H]; [discriminate H|]).
      by apply elem_of_nil in H.
    + intros to d H. simpl in H.
      repeat (apply elem_of_cons in H as [H|H]; [discriminate H|]).
      by apply elem_of_nil in H.
Qed.

End PaymentOdds.

Lemma checkout_clears_cart_only_on_success_witness :
  Checkout.ClearCart
  ∈ Checkout.handleCheckout Payment.sampleFormat Payment.sampleDraws 7
      (Cart.items Cart.exampleCart) 15.99%float
      (Payment.mkCustomerInfo "jo@x.com" "Jo") Payment.STRIPE.
Proof.
  apply (proj1 (checkout_clears_cart_only_on_success Payment.sampleFormat
                  Payment.sampleDraws 7 (Cart.items Cart.exampleCart)
                  15.99%float (Payment.mkCustomerInfo "jo@x.com" "Jo")
                  Payment.STRIPE)).
  do 2 eexists. do 4 apply list_elem_of_further. apply list_elem_of_here.
Defined.

(** ** Loading and recording orders *)

Section OrdersEdges.
Import Json Orders.

(** X21.  The order-loading effect has no guard of its own.  Persisted text
    that is not JSON makes it throw, with or without a new order.  With a
    new order it also throws when the persisted value is [null], a boolean,
    a number or an object, and when the storage refuses the write; without
    one it shows whatever value was persisted and never writes. *)
Theorem loadOrders_unguarded (store : Storage) (now : Z) :
  (∀ c text orderData,
     entries store !! ORDERS_KEY = Some (Malformed (String c text)) →
     loadOrders orderData now store = Crashed)
  ∧ (∀ v data,
       entries store !! ORDERS_KEY = Some (Doc v) →
       spreadArray v = Some None →
       loadOrders (Some data) now store = Crashed)
  ∧ (∀ data olds,
       persistedOrders store = Some olds → writable store = false →
       loadOrders (Some data) now store = Crashed)
  ∧ (∀ v, entries store !! ORDERS_KEY = Some (Doc v) →
          loadOrders None now store = Finished v store)
  ∧ (∀ shown store', loadOrders None now store = Finished shown store' →
                     store' = store).
Proof.
  unfold loadOrders, persistedOrders. repeat split.
  - intros c text orderData ->. done.
  - intros v data -> Hspread. simpl. by rewrite Hspread.
  - intros data olds Hold Hwrite.
    destruct (entries store !! ORDERS_KEY) as [[text|v]|].
    + destruct text; [|done]. simpl. by rewrite Hwrite.
    + destruct v; try done. simpl. by rewrite Hwrite.
    + simpl. by rewrite Hwrite.
  - by intros v ->.
  - intros shown store'.
    destruct (entries store !! ORDERS_KEY) as [[text|v]|]; simpl.
    + destruct (Js.truthy_string text); [done|]. by intros [= _ <-].
    + by intros [= _ <-].
    + by intros [= _ <-].
Qed.

Lemma assoc_setField_ne key key' v fields :
  key ≠ key' → assoc key (setField key' v fields) = assoc key fields.
Proof.
  intros Hne. induction fields as [|[k old] rest IH]; simpl.
  - destruct (String.eqb key' key) eqn:Hk; [|done].
    apply String.eqb_eq in Hk. congruence.
  - destruct (String.eqb k key') eqn:Hk; simpl.
    + apply String.eqb_eq in Hk. subst k.
      destruct (String.eqb key' key) eqn:Hk'; [|done].
      apply String.eqb_eq in Hk'. congruence.
    + by rewrite IH.
Qed.

Lemma assoc_None key fields : assoc key fields = None ↔ key ∉ (fst <$> fields).
Proof.
  induction fields as [|[k v] rest IH]; simpl.
  - split; [intros _; apply not_elem_of_nil|done].
  - rewrite not_elem_of_cons. destruct (String.eqb k key) eqn:Hk.
    + apply String.eqb_eq in Hk. subst k. split; [done|]. by intros [? _].
    + apply String.eqb_neq in Hk. rewrite IH. split; [|by intros [_ ?]].
      intros H. split; [congruence|done].
Qed.

Lemma assoc_spread_absent key a b :
  key ∉ (fst <$> b) → assoc key (spread a b) = assoc key a.
Proof.
  unfold spread. revert a. induction b as [|[k v] b IH]; intros a Hb; [done|].
  rewrite fmap_cons, not_elem_of_cons in Hb. destruct Hb as [Hk Hb].
  simpl. rewrite IH by done. by apply assoc_setField_ne.
Qed.

Lemma assoc_spread key a b :
  NoDup (fst <$> b) →
  assoc key (spread a b)
  = match assoc key b with Some v => Some v | None => assoc key a end.
Proof.
  unfold spread. revert a. induction b as [|[k v] b IH]; intros a Hnd; [done|].
  rewrite fmap_cons in Hnd. apply NoDup_cons in Hnd as [Hk Hnd].
  cbn [fold_left fst snd assoc]. destruct (String.eqb k key) eqn:Heq.
  - apply String.eqb_eq in Heq. subst k.
    change (fold_left _ b ?x) with (spread x b).
    rewrite assoc_spread_absent by done. apply assoc_setField.
  - apply String.eqb_neq in Heq. rewrite IH by done.
    destruct (assoc key b); [done|]. by apply assoc_setField_ne.
Qed.

(** X22.  The new order keeps every field of the order data under its name,
    except that its status is always completed; its identifier is the one
    in the order data when there is one, and otherwise order_ followed by
    the current time. *)
Theorem newOrder_fields (data : list (string * json)) (now : Z) (key : string) :
  NoDup (fst <$> data) →
  prop (newOrder data now) key
  = if String.eqb key "status" then Some (JStr "completed")
    else if String.eqb key "id"
         then Some (default (JStr ("order_" +:+ Js.decimal now))
                            (assoc "id" data))
    else assoc key data.
Proof.
  intros Hnd. unfold newOrder. cbn [prop].
  destruct (String.eqb key "status") eqn:Hstatus.
  - apply String.eqb_eq in Hstatus. subst key. apply assoc_setField.
  - apply String.eqb_neq in Hstatus.
    rewrite assoc_setField_ne by done. rewrite assoc_spread by done.
    destruct (String.eqb key "id") eqn:Hid.
    + apply String.eqb_eq in Hid. subst key. by destruct (assoc "id" data).
    + destruct (assoc key data); [done|]. cbn [assoc].
      by rewrite String.eqb_sym, Hid.
Qed.

Lemma newOrder_fields_witness :
  prop (newOrder [("transactionId", JStr "txn_1"); ("status", JStr "failed")] 5)
       "status"
  = Some (JStr "completed").
Proof.
  apply (newOrder_fields [("transactionId", JStr "txn_1");
                          ("status", JStr "failed")] 5 "status").
  apply (bool_decide_unpack _). reflexivity.
Defined.

Lemma loadOrders_unguarded_witness :
  loadOrders None 0 (mkStorage {[ ORDERS_KEY := Malformed "{oops" ]} true)
  = Crashed.
Proof.
  apply (proj1 (loadOrders_unguarded
                  (mkStorage {[ ORDERS_KEY := Malformed "{oops" ]} true) 0)
           "{"%char "oops" None).
  reflexivity.
Defined.

End OrdersEdges.

(** ** The three stores and their keys *)

Section KeyIsolation.
Import Json.

Variable isValidEmail : string → bool.

Local Abbreviation writesUserOnly w w' :=
  (Auth.storage w' = Auth.storage w
   ∨ ∃ d, Auth.storage w'
          = mkStorage (<[Auth.LOCAL_STORAGE_KEYS_USER := d]>
                         (entries (Auth.storage w))) true).

Local Ltac run_auth :=
  cbv [Auth.login Auth.register Auth.refreshUser Auth.saveUserData
       Auth.tryCatch Auth.rethrow Auth.setItem mbind Auth.M_bind mret
       Auth.M_ret Auth.dispatch Auth.simulateApiDelay Auth.emit Auth.throw
       Auth.storage Auth.state Auth.events fst snd negb].

Lemma login_writes_user_only email password env w :
  writesUserOnly w (snd (Auth.login isValidEmail email password env w)).
Proof.
  destruct w as [st store ev]. run_auth.
  destruct (isValidEmail email), (Auth.validatePassword password),
    (writable store); first [by left | by right; eexists].
Qed.

Lemma register_writes_user_only email password name roleArg env w :
  writesUserOnly w
    (snd (Auth.register isValidEmail email password name roleArg env w)).
Proof.
  destruct w as [st store ev]. run_auth.
  destruct (isValidEmail email), (Auth.validatePassword password),
    (Js.truthy_string (Js.trim name)), (writable store);
    first [by left | by right; eexists].
Qed.

Lemma refreshUser_writes_user_only now w :
  writesUserOnly w (snd (Auth.refreshUser now w)).
Proof.
  destruct w as [[u ld er] store ev]. run_auth. cbv [Auth.user].
  destruct u; [|by left].
  destruct (writable store); first [by left | by right; eexists].
Qed.

Lemma writes_user_only_other (w w' : Auth.World) k :
  k ≠ Auth.LOCAL_STORAGE_KEYS_USER →
  writesUserOnly w w' →
  entries (Auth.storage w') !! k = entries (Auth.storage w) !! k.
Proof.
  intros Hne [->|[d ->]]; [done|]. cbn [entries]. by rewrite lookup_insert_ne.
Qed.

(** X23.  Each store keeps to its own key.  Saving the cart changes no entry
    but the cart's; [login], [register], [logout] and [refreshUser] change
    no entry but the user's (whether or not the removal of [logout]
    throws); the order-loading effect changes no entry but the orders'.  The
    three keys are different. *)
Theorem stores_keep_to_their_keys (k : string) :
  (k ≠ Cart.LOCAL_STORAGE_KEYS_CART →
   ∀ l store, entries (Cart.saveCartData l store) !! k = entries store !! k)
  ∧ (k ≠ Auth.LOCAL_STORAGE_KEYS_USER →
     (∀ email password env w,
        entries (Auth.storage (snd (Auth.login isValidEmail email password env w))) !! k
        = entries (Auth.storage w) !! k)
     ∧ (∀ email password name roleArg env w,
          entries (Auth.storage
                     (snd (Auth.register isValidEmail email password name
                                         roleArg env w))) !! k
          = entries (Auth.storage w) !! k)
     ∧ (∀ removalThrows w,
          entries (Auth.storage (snd (Auth.logout removalThrows w))) !! k
          = entries (Auth.storage w) !! k)
     ∧ (∀ now w, entries (Auth.storage (snd (Auth.refreshUser now w))) !! k
                 = entries (Auth.storage w) !! k))
  ∧ (k ≠ Orders.ORDERS_KEY →
     ∀ orderData now store shown store',
       Orders.loadOrders orderData now store = Orders.Finished shown store' →
       entries store' !! k = entries store !! k)
  ∧ Cart.LOCAL_STORAGE_KEYS_CART ≠ Auth.LOCAL_STORAGE_KEYS_USER
  ∧ Cart.LOCAL_STORAGE_KEYS_CART ≠ Orders.ORDERS_KEY
  ∧ Auth.LOCAL_STORAGE_KEYS_USER ≠ Orders.ORDERS_KEY.
Proof.
  split; [|split; [|split]].
  - intros Hne l store. unfold Cart.saveCartData.
    destruct (writable store); [|done]. cbn [entries].
    by rewrite lookup_insert_ne.
  - intros Hne. split; [|split; [|split]].
    + intros email password env w.
      apply writes_user_only_other; [done|]. apply login_writes_user_only.
    + intros email password name roleArg env w.
      apply writes_user_only_other; [done|]. apply register_writes_user_only.
    + intros [] w; [done|].
      change (entries (Auth.storage (snd (Auth.logout false w))))
        with (delete Auth.LOCAL_STORAGE_KEYS_USER (entries (Auth.storage w))).
      by rewrite lookup_delete_ne.
    + intros now w.
      apply writes_user_only_other; [done|]. apply refreshUser_writes_user_only.
  - intros Hne orderData now store shown store'. unfold Orders.loadOrders.
    destruct (match entries store !! Orders.ORDERS_KEY with
              | Some savedOrders => _
              | None => _
              end) as [existing|]; [|discriminate].
    destruct orderData as [data|]; [|by intros [= _ <-]].
    destruct (Orders.spreadArray existing) as [[elems|]|]; try discriminate.
    destruct (writable store); [|discriminate].
    intros [= _ <-]. cbn [entries]. by rewrite lookup_insert_ne.
  - repeat split; discriminate.
Qed.

End KeyIsolation.

Lemma stores_keep_to_their_keys_witness :
  Json.entries (Auth.storage (snd (Auth.logout false Auth.signedInWorld)))
    !! Cart.LOCAL_STORAGE_KEYS_CART
  = Json.entries (Auth.storage Auth.signedInWorld)
      !! Cart.LOCAL_STORAGE_KEYS_CART.
Proof.
  apply (proj1 (proj2 (proj2 (proj1 (proj2
           (stores_keep_to_their_keys Auth.sampleIsValidEmail
              Cart.LOCAL_STORAGE_KEYS_CART)) ltac:(discriminate))))).
Defined.
